(** * thing-list: the tag/view resolution engine of [config/core.js]

    A shallow embedding of the matching and enumeration functions of
    [core.js], in the two revisions that differ on the [Others] view and on
    the subfolder filter of [getAllViews]:

    - [CoreJs]  is [src/config/core.js];
    - [Part003] is [src/unnamed/part_003], where the names of the built-in
      views and tags come from [user.js].

    Everything the two files share textually ([trimSlashes],
    [regularViewMatchesTags], [viewMatchesTags], [getExistingTagNames],
    [getInitiatedViewNames]) is embedded once.

    Modelling conventions.
    - A JavaScript string is a [string]; a character stands for one code
      unit, and the default [Array.prototype.sort] order (code units,
      lexicographic) is [String.leb].
    - A JavaScript array is a [list]; a [Set] is a list without repetition in
      insertion order.
    - An object used as a table is an association list in key order
      ([Object.keys] is the list of first components).
    - User predicates are pure total functions to [bool].
    - [app] is a snapshot of the vault: the files with their parent path and
      parsed frontmatter, and the paths of the metadata cache. *)

From Stdlib Require Import String Ascii List Bool Arith ZArith Lia.
From Stdlib Require Import Sorting.Sorted.
Import ListNotations.
Local Open Scope string_scope.
Local Open Scope list_scope.

(** ** JavaScript primitives *)

Module JS.

(** [s.startsWith(p)] *)
Definition startsWith (s p : string) : bool := String.prefix p s.

(** [s.endsWith(p)]: the last [p.length] code units of [s] are [p]. *)
Definition endsWith (s p : string) : bool :=
  let n := String.length s in
  let m := String.length p in
  Nat.leb m n && String.eqb (String.substring (n - m) m s) p.

(** A relative index of [slice]: negative counts from the end, and the result
    is clamped to [0 .. len]. *)
Definition relativeIndex (len : nat) (i : Z) : nat :=
  if (i <? 0)%Z then Z.to_nat (Z.max (Z.of_nat len + i) 0)
  else Nat.min (Z.to_nat i) len.

(** [s.slice(start)] is [slice s start None]; [s.slice(start, end)] is
    [slice s start (Some end)]. *)
Definition slice (s : string) (start : Z) (end_ : option Z) : string :=
  let len := String.length s in
  let from := relativeIndex len start in
  let to :=
    match end_ with
    | None => len
    | Some e => relativeIndex len e
    end in
  String.substring from (to - from) s.

(** [s.split(sep)] for a separator of one code unit. *)
Fixpoint split (sep : ascii) (s : string) : list string :=
  match s with
  | EmptyString => [EmptyString]
  | String c s' =>
      if Ascii.eqb c sep then EmptyString :: split sep s'
      else
        match split sep s' with
        | h :: t => String c h :: t
        | [] => [String c EmptyString]
        end
  end.

(** [s.includes(p)] on strings. *)
Definition str_includes (s p : string) : bool :=
  match String.index 0 p s with
  | Some _ => true
  | None => false
  end.

(** [s.replace(pat, rep)] with one-code-unit string arguments: only the first
    occurrence is replaced. *)
Fixpoint replace (pat rep : ascii) (s : string) : string :=
  match s with
  | EmptyString => EmptyString
  | String c s' =>
      if Ascii.eqb c pat then String rep s' else String c (replace pat rep s')
  end.

(** [arr.includes(x)] on arrays of strings. *)
Definition includes (arr : list string) (x : string) : bool :=
  existsb (String.eqb x) arr.

(** [set.add(x)] on a [Set] of strings kept in insertion order. *)
Definition set_add (set : list string) (x : string) : list string :=
  if includes set x then set else set ++ [x].

(** [arr.sort()] on strings: the sorted permutation for the code-unit order,
    computed here by insertion. *)
Fixpoint sort_insert (x : string) (l : list string) : list string :=
  match l with
  | [] => [x]
  | y :: l' => if String.leb x y then x :: l else y :: sort_insert x l'
  end.

Fixpoint sort (l : list string) : list string :=
  match l with
  | [] => []
  | x :: l' => sort_insert x (sort l')
  end.

(** Objects used as tables. *)
Definition object (V : Type) : Type := list (string * V).

Definition keys {V} (o : object V) : list string := map fst o.

(** [o[k]], [None] for [undefined]. *)
Fixpoint get {V} (o : object V) (k : string) : option V :=
  match o with
  | [] => None
  | (k', v) :: o' => if String.eqb k k' then Some v else get o' k
  end.

(** [o[k] = v]: a present key keeps its place, a new key goes last. *)
Fixpoint set {V} (o : object V) (k : string) (v : V) : object V :=
  match o with
  | [] => [(k, v)]
  | (k', v') :: o' =>
      if String.eqb k k' then (k', v) :: o' else (k', v') :: set o' k v
  end.

(** [o[k](x)] for a table of predicates.  The source calls it only under
    [Object.keys(o).includes(k)], where the entry exists ([get_keys] below);
    the [false] of the other branch is never reached. *)
Definition call {A} (o : object (A -> bool)) (k : string) (x : A) : bool :=
  match get o k with
  | Some f => f x
  | None => false
  end.

(** [s.replaceAll(pat, rep)] with one-code-unit string arguments. *)
Fixpoint replaceAll (pat rep : ascii) (s : string) : string :=
  match s with
  | EmptyString => EmptyString
  | String c s' =>
      if Ascii.eqb c pat then String rep (replaceAll pat rep s')
      else String c (replaceAll pat rep s')
  end.

End JS.

(** ** Types of [core.js] *)

Definition ViewName := string.
Definition TagName := string.
Definition CustomViews := JS.object (list TagName -> bool).
Definition CustomTags := JS.object (ViewName -> bool).

(** ** Functions shared by both revisions *)

(** [trimSlashes(str)] *)
Definition trimSlashes (str : string) : string :=
  let str := if JS.startsWith str "/" then JS.slice str 1 None else str in
  let str := if JS.endsWith str "/" then JS.slice str 0 (Some (-1)%Z) else str in
  str.

(** The inner [for] of [regularViewMatchesTags]: [true] when the loop leaves
    [view_matches_tag] set.  An index past the end of the tag's segments reads
    [undefined], which differs from every string. *)
Fixpoint segmentsMatch (view_name_split tag_name_split : list string) : bool :=
  match view_name_split with
  | [] => true
  | v :: vs =>
      match tag_name_split with
      | [] => false
      | t :: ts => if String.eqb v t then segmentsMatch vs ts else false
      end
  end.

(** The [for (const tag_name of tag_names)] loop of
    [regularViewMatchesTags], on the last path segment of the view name. *)
Fixpoint regularLoop (view_name : string) (tag_names : list TagName) : bool :=
  match tag_names with
  | [] => false
  | tag_name :: rest =>
      if JS.str_includes view_name " " then
        let view_name_split := JS.split " " view_name in
        let tag_name_split := JS.split "/" tag_name in
        if Nat.ltb (List.length tag_name_split) (List.length view_name_split) then
          regularLoop view_name rest
        else if segmentsMatch view_name_split tag_name_split then true
        else regularLoop view_name rest
      else if String.eqb (hd "" (JS.split "/" tag_name)) view_name then true
      else regularLoop view_name rest
  end.

(** [regularViewMatchesTags(view_name, tag_names)] *)
Definition regularViewMatchesTags
    (view_name : ViewName) (tag_names : list TagName) : bool :=
  let view_name := trimSlashes view_name in
  let split_view_name := JS.split "/" view_name in
  let view_name := last split_view_name "" in
  regularLoop view_name tag_names.


(** ** Configuration ([user.js]) and vault snapshot ([app]) *)

(** The constants [core.js] takes from [user.js].  The four names and
    [CALCULATE_SUBFOLDER_UNINITIATED] are read by [part_003] only. *)
Record Config := {
  ALL_NAME : string;
  UNTAGGED_NAME : string;
  OTHERS_NAME : string;
  ARCHIVE_NAME : string;
  VIEWS_PATH : string;
  THINGS_PATH : string;
  CALCULATE_SUBFOLDER_UNINITIATED : bool;
  CUSTOM_VIEWS : CustomViews;
  CUSTOM_TAGS : CustomTags
}.

(** [user.js] as shipped: default names and paths, empty user tables. *)
Definition default_config : Config := {|
  ALL_NAME := "All";
  UNTAGGED_NAME := "Untagged";
  OTHERS_NAME := "Others";
  ARCHIVE_NAME := "Archive";
  VIEWS_PATH := "Views";
  THINGS_PATH := "Things";
  CALCULATE_SUBFOLDER_UNINITIATED := true;
  CUSTOM_VIEWS := [];
  CUSTOM_TAGS := []
|}.

(** [app.metadataCache.getFileCache(file).frontmatter]: [None] when the note
    has no frontmatter; [tags] is [None] when the frontmatter has no tags. *)
Record Frontmatter := { tags : option (list TagName) }.

(** A file of [app.vault.getFiles()]: [file.path], [file.parent.path] and the
    frontmatter of its cache entry. *)
Record TFile := {
  path : string;
  parent_path : string;
  frontmatter : option Frontmatter
}.

Record Vault := {
  getFiles : list TFile;
  getCachedFiles : list string
}.

(** [frontmatter && frontmatter.tags && frontmatter.tags.length > 0]: the
    tags when the test passes. *)
Definition nonemptyTags (file : TFile) : option (list TagName) :=
  match frontmatter file with
  | None => None
  | Some fm =>
      match tags fm with
      | None => None
      | Some [] => None
      | Some ts => Some ts
      end
  end.

(** Keyword arguments of [viewMatchesTags]; [None] is [undefined]. *)
Record MatchKwargs := {
  mk_custom_views : option CustomViews;
  mk_custom_tags : option CustomTags
}.

(** Keyword arguments of [getAllViews]. *)
Record ViewsKwargs := {
  vk_calculate_subfolder_uninitiated : option bool;
  vk_views_path : option string;
  vk_things_path : option string;
  vk_custom_views : option CustomViews;
  vk_custom_tags : option CustomTags
}.

(** [let x = d; if (kwargs !== undefined) { if (kwargs.f !== undefined) x = kwargs.f }] *)
Definition kwarg {K A} (kwargs : option K) (f : K -> option A) (d : A) : A :=
  match kwargs with
  | None => d
  | Some k =>
      match f k with
      | None => d
      | Some a => a
      end
  end.

(** [getInitiatedViewNames(views_path = VIEWS_PATH)] *)
Definition getInitiatedViewNames
    (cfg : Config) (app : Vault) (views_path : option string) : list ViewName :=
  let views_path :=
    trimSlashes (match views_path with Some p => p | None => VIEWS_PATH cfg end) in
  let file_paths := getCachedFiles app in
  let view_paths := filter (fun path => JS.startsWith path views_path) file_paths in
  let views_path_length := String.length views_path + 1 in
  map (fun path => JS.slice path (Z.of_nat views_path_length) (Some (-3)%Z))
      view_paths.

(** The loop of [getExistingTagNames]: [tag_names.add(...frontmatter.tags)]
    passes every tag, and [Set.prototype.add] takes the first one. *)
Fixpoint existingTagsLoop (thing_files : list TFile) (tag_names : list TagName)
    : list TagName :=
  match thing_files with
  | [] => tag_names
  | file :: rest =>
      match nonemptyTags file with
      | Some (t :: _) => existingTagsLoop rest (JS.set_add tag_names t)
      | _ => existingTagsLoop rest tag_names
      end
  end.

(** [getExistingTagNames(things_path = THINGS_PATH)] *)
Definition getExistingTagNames
    (cfg : Config) (app : Vault) (things_path : option string) : list TagName :=
  let things_path :=
    trimSlashes (match things_path with Some p => p | None => THINGS_PATH cfg end) in
  let files := getFiles app in
  let thing_files := filter (fun file => JS.startsWith (path file) things_path) files in
  existingTagsLoop thing_files [].

(** *** [viewMatchesTags] *)

(** The tag loop of [viewMatchesTags]: [false] when it returns [false],
    [true] when it runs to its end. *)
Fixpoint tagRulesPass (custom_tags CORE_CUSTOM_TAGS : CustomTags)
    (view_name : ViewName) (tag_names : list TagName) : bool :=
  match tag_names with
  | [] => true
  | tag_name :: rest =>
      if JS.includes (JS.keys custom_tags) tag_name then
        if negb (JS.call custom_tags tag_name view_name) then false
        else tagRulesPass custom_tags CORE_CUSTOM_TAGS view_name rest
      else if JS.includes (JS.keys CORE_CUSTOM_TAGS) tag_name then
        if negb (JS.call CORE_CUSTOM_TAGS tag_name view_name) then false
        else tagRulesPass custom_tags CORE_CUSTOM_TAGS view_name rest
      else tagRulesPass custom_tags CORE_CUSTOM_TAGS view_name rest
  end.

(** The [while] loop that builds [matching_view_names]: [popped] lists what
    the successive [view_name_split.pop()] return. *)
Fixpoint unshiftLoop (popped : list string) (matching_view_names : list ViewName)
    : list ViewName :=
  match popped with
  | [] => matching_view_names
  | seg :: rest =>
      unshiftLoop rest
        ((seg ++ "/" ++ hd "" matching_view_names)%string :: matching_view_names)
  end.

(** [matching_view_names] as [viewMatchesTags] builds it from the trimmed
    view name. *)
Definition matching_view_names (view_name : ViewName) : list ViewName :=
  let m := [("/" ++ view_name)%string] in
  let view_name_split := JS.split "/" view_name in
  let m := last view_name_split "" :: m in
  unshiftLoop (rev (removelast view_name_split)) m.

(** The loop over [matching_view_names]: [Some b] when it returns [b],
    [None] when no variant is a key. *)
Fixpoint viewRuleLoop (custom_views CORE_CUSTOM_VIEWS : CustomViews)
    (names : list ViewName) (tag_names : list TagName) : option bool :=
  match names with
  | [] => None
  | matching_view_name :: rest =>
      if JS.includes (JS.keys custom_views) matching_view_name then
        Some (JS.call custom_views matching_view_name tag_names)
      else if JS.includes (JS.keys CORE_CUSTOM_VIEWS) matching_view_name then
        Some (JS.call CORE_CUSTOM_VIEWS matching_view_name tag_names)
      else viewRuleLoop custom_views CORE_CUSTOM_VIEWS rest tag_names
  end.

(** [viewMatchesTags(view_name, tag_names, kwargs)], with the two module
    constants [CORE_CUSTOM_VIEWS] and [CORE_CUSTOM_TAGS] of the revision as
    parameters.  [tag_names] is [None] for [null]. *)
Definition viewMatchesTagsWith (CORE_CUSTOM_VIEWS : CustomViews)
    (CORE_CUSTOM_TAGS : CustomTags) (cfg : Config)
    (view_name : ViewName) (tag_names : option (list TagName))
    (kwargs : option MatchKwargs) : bool :=
  let custom_views := kwarg kwargs mk_custom_views (CUSTOM_VIEWS cfg) in
  let custom_tags := kwarg kwargs mk_custom_tags (CUSTOM_TAGS cfg) in
  let tag_names := match tag_names with None => [] | Some t => t end in
  let view_name := trimSlashes view_name in
  if negb (tagRulesPass custom_tags CORE_CUSTOM_TAGS view_name tag_names) then false
  else
    match viewRuleLoop custom_views CORE_CUSTOM_VIEWS
            (matching_view_names view_name) tag_names with
    | Some b => b
    | None => regularViewMatchesTags view_name tag_names
    end.

(** *** [getAllViews] *)

(** The two inner loops over [subfolders_array] and [tags]. *)
Fixpoint subfolderLoop (subfolders_array : list string) (tags : list string)
    (full_subfolder : string) (existing_subfolder_tag_names : list string)
    : list string :=
  match subfolders_array with
  | [] => existing_subfolder_tag_names
  | subfolder :: rest =>
      let full_subfolder := (full_subfolder ++ subfolder ++ "/")%string in
      let set :=
        fold_left (fun set tag => JS.set_add set (full_subfolder ++ tag)%string)
                  tags existing_subfolder_tag_names in
      subfolderLoop rest tags full_subfolder set
  end.

(** The loop over [thing_subfolder_files]. *)
Fixpoint subfolderFilesLoop (things_path_length : nat)
    (thing_subfolder_files : list TFile)
    (existing_subfolder_tag_names : list string) : list string :=
  match thing_subfolder_files with
  | [] => existing_subfolder_tag_names
  | file :: rest =>
      match nonemptyTags file with
      | None => subfolderFilesLoop things_path_length rest existing_subfolder_tag_names
      | Some ts =>
          let tags := map (JS.replace "/" " ") ts in
          let subfolders_array :=
            JS.split "/" (JS.slice (parent_path file) (Z.of_nat things_path_length) None) in
          subfolderFilesLoop things_path_length rest
            (subfolderLoop subfolders_array tags "" existing_subfolder_tag_names)
      end
  end.

(** The loop over one array of candidate names. *)
Fixpoint pushNames (initiated_view_names : list ViewName) (array : list ViewName)
    (uninitiated_view_names : list ViewName) : list ViewName :=
  match array with
  | [] => uninitiated_view_names
  | name :: rest =>
      if negb (JS.includes uninitiated_view_names name)
         && negb (JS.includes initiated_view_names name)
      then pushNames initiated_view_names rest (uninitiated_view_names ++ [name])
      else pushNames initiated_view_names rest uninitiated_view_names
  end.

(** The loop over [possible_uninitiated_view_name_arrays]. *)
Definition pushArrays (initiated_view_names : list ViewName)
    (arrays : list (list ViewName)) (uninitiated_view_names : list ViewName)
    : list ViewName :=
  fold_left (fun acc array => pushNames initiated_view_names array acc)
            arrays uninitiated_view_names.

Record Views := {
  initiated : list ViewName;
  uninitiated : list ViewName
}.

(** ** [src/config/core.js] *)

Module CoreJs.

Section Core.
Variable cfg : Config.
Variable app : Vault.

(** [Object.keys(CORE_CUSTOM_VIEWS)] *)
Definition core_custom_view_names : list ViewName := ["All"; "Untagged"; "Others"].

(** The loop of [CORE_CUSTOM_VIEWS.Others] over [getInitiatedViewNames()]. *)
Fixpoint OthersLoop (core_custom_view_names user_custom_view_names : list ViewName)
    (initiated : list ViewName) (tag_names : list TagName) : bool :=
  match initiated with
  | [] => true
  | view_name :: rest =>
      if JS.includes core_custom_view_names view_name then
        OthersLoop core_custom_view_names user_custom_view_names rest tag_names
      else if JS.includes user_custom_view_names view_name
              || regularViewMatchesTags view_name tag_names
      then false
      else OthersLoop core_custom_view_names user_custom_view_names rest tag_names
  end.

Definition Others (tag_names : list TagName) : bool :=
  let user_custom_view_names := JS.keys (CUSTOM_VIEWS cfg) in
  OthersLoop core_custom_view_names user_custom_view_names
             (getInitiatedViewNames cfg app None) tag_names.

Definition CORE_CUSTOM_VIEWS : CustomViews :=
  [ ("All", fun _ => true);
    ("Untagged", fun tag_names => Nat.eqb (List.length tag_names) 0);
    ("Others", Others) ].

Definition CORE_CUSTOM_TAGS : CustomTags :=
  [ ("Archive", fun view_name => String.eqb view_name "Archive") ].

Definition viewMatchesTags :=
  viewMatchesTagsWith CORE_CUSTOM_VIEWS CORE_CUSTOM_TAGS cfg.

(** [existing_tag_names] of [getAllViews] after the subfolder block (lines
    576-604): the candidates taken from tags. *)
Definition existingTagNames (calculate_subfolder_uninitiated : bool)
    (views_path things_path : string) : list ViewName :=
  let existing_tag_names := getExistingTagNames cfg app (Some things_path) in
  let existing_tag_names := map (JS.replace "/" " ") existing_tag_names in
  if calculate_subfolder_uninitiated then
    let files := getFiles app in
    let thing_subfolder_files :=
      filter (fun file => JS.startsWith (parent_path file) (views_path ++ "/")%string)
             files in
    let things_path_length := String.length things_path + 1 in
    let existing_subfolder_tag_names :=
      subfolderFilesLoop things_path_length thing_subfolder_files [] in
    existing_tag_names ++ existing_subfolder_tag_names
  else existing_tag_names.

Definition getAllViews (kwargs : option ViewsKwargs) : Views :=
  let calculate_subfolder_uninitiated :=
    kwarg kwargs vk_calculate_subfolder_uninitiated true in
  let views_path := kwarg kwargs vk_views_path (VIEWS_PATH cfg) in
  let things_path := kwarg kwargs vk_things_path (THINGS_PATH cfg) in
  let custom_views := kwarg kwargs vk_custom_views (CUSTOM_VIEWS cfg) in
  let custom_tags := kwarg kwargs vk_custom_tags (CUSTOM_TAGS cfg) in
  let views_path := trimSlashes views_path in
  let things_path := trimSlashes things_path in
  let initiated_view_names :=
    JS.sort (getInitiatedViewNames cfg app (Some views_path)) in
  let existing_tag_names :=
    existingTagNames calculate_subfolder_uninitiated views_path things_path in
  let user_custom_view_names := JS.keys custom_views in
  let core_custom_view_names := JS.keys CORE_CUSTOM_VIEWS in
  let user_custom_tag_names := map (JS.replace "/" " ") (JS.keys custom_tags) in
  let core_custom_tag_names := map (JS.replace "/" " ") (JS.keys CORE_CUSTOM_TAGS) in
  let possible_uninitiated_view_name_arrays :=
    [ existing_tag_names; user_custom_view_names; core_custom_view_names;
      user_custom_tag_names; core_custom_tag_names ] in
  let uninitiated_view_names :=
    pushArrays initiated_view_names possible_uninitiated_view_name_arrays [] in
  {| initiated := initiated_view_names;
     uninitiated := JS.sort uninitiated_view_names |}.

End Core.

End CoreJs.

(** ** [src/unnamed/part_003] *)

Module Part003.

Section Core.
Variable cfg : Config.
Variable app : Vault.

(** [Object.keys(CORE_CUSTOM_VIEWS)]: the three computed keys, in the order
    of the literal; a repeated name keeps its first place. *)
Definition core_custom_view_names : list ViewName :=
  JS.keys (JS.set (JS.set (JS.set [] (ALL_NAME cfg) tt) (UNTAGGED_NAME cfg) tt)
                  (OTHERS_NAME cfg) tt).

(** The loop of [CORE_CUSTOM_VIEWS[OTHERS_NAME]] over
    [getInitiatedViewNames()]. *)
Fixpoint OthersLoop (core_custom_view_names user_custom_view_names : list ViewName)
    (initiated : list ViewName) (tag_names : list TagName) : bool :=
  match initiated with
  | [] => true
  | view_name :: rest =>
      if JS.includes core_custom_view_names view_name then
        OthersLoop core_custom_view_names user_custom_view_names rest tag_names
      else if (JS.includes user_custom_view_names view_name
               && JS.call (CUSTOM_VIEWS cfg) view_name tag_names)
              || regularViewMatchesTags view_name tag_names
      then false
      else OthersLoop core_custom_view_names user_custom_view_names rest tag_names
  end.

Definition Others (tag_names : list TagName) : bool :=
  let user_custom_view_names := JS.keys (CUSTOM_VIEWS cfg) in
  OthersLoop core_custom_view_names user_custom_view_names
             (getInitiatedViewNames cfg app None) tag_names.

Definition CORE_CUSTOM_VIEWS : CustomViews :=
  JS.set
    (JS.set
       (JS.set [] (ALL_NAME cfg) (fun _ => true))
       (UNTAGGED_NAME cfg) (fun tag_names => Nat.eqb (List.length tag_names) 0))
    (OTHERS_NAME cfg) Others.

Definition CORE_CUSTOM_TAGS : CustomTags :=
  JS.set [] (ARCHIVE_NAME cfg) (fun view_name => String.eqb view_name "Archive").

Definition viewMatchesTags :=
  viewMatchesTagsWith CORE_CUSTOM_VIEWS CORE_CUSTOM_TAGS cfg.

(** [existing_tag_names] of [getAllViews] after the subfolder block (lines
    856-884): the candidates taken from tags. *)
Definition existingTagNames (calculate_subfolder_uninitiated : bool)
    (views_path things_path : string) : list ViewName :=
  let existing_tag_names := getExistingTagNames cfg app (Some things_path) in
  let existing_tag_names := map (JS.replace "/" " ") existing_tag_names in
  if calculate_subfolder_uninitiated then
    let files := getFiles app in
    let thing_subfolder_files :=
      filter (fun file => JS.startsWith (parent_path file) (things_path ++ "/")%string)
             files in
    let things_path_length := String.length things_path + 1 in
    let existing_subfolder_tag_names :=
      subfolderFilesLoop things_path_length thing_subfolder_files [] in
    existing_tag_names ++ existing_subfolder_tag_names
  else existing_tag_names.

Definition getAllViews (kwargs : option ViewsKwargs) : Views :=
  let calculate_subfolder_uninitiated :=
    kwarg kwargs vk_calculate_subfolder_uninitiated
          (CALCULATE_SUBFOLDER_UNINITIATED cfg) in
  let views_path := kwarg kwargs vk_views_path (VIEWS_PATH cfg) in
  let things_path := kwarg kwargs vk_things_path (THINGS_PATH cfg) in
  let custom_views := kwarg kwargs vk_custom_views (CUSTOM_VIEWS cfg) in
  let custom_tags := kwarg kwargs vk_custom_tags (CUSTOM_TAGS cfg) in
  let views_path := trimSlashes views_path in
  let things_path := trimSlashes things_path in
  let initiated_view_names :=
    JS.sort (getInitiatedViewNames cfg app (Some views_path)) in
  let existing_tag_names :=
    existingTagNames calculate_subfolder_uninitiated views_path things_path in
  let user_custom_view_names := JS.keys custom_views in
  let core_custom_view_names := JS.keys CORE_CUSTOM_VIEWS in
  let user_custom_tag_names := map (JS.replace "/" " ") (JS.keys custom_tags) in
  let core_custom_tag_names := map (JS.replace "/" " ") (JS.keys CORE_CUSTOM_TAGS) in
  let possible_uninitiated_view_name_arrays :=
    [ existing_tag_names; user_custom_view_names; core_custom_view_names;
      user_custom_tag_names; core_custom_tag_names ] in
  let uninitiated_view_names :=
    pushArrays initiated_view_names possible_uninitiated_view_name_arrays [] in
  {| initiated := initiated_view_names;
     uninitiated := JS.sort uninitiated_view_names |}.

End Core.

End Part003.


(** ** Definitions used to state and prove the properties *)

(** [s.slice(1)] drops the first code unit. *)
Definition dropFirst (s : string) : string :=
  match s with
  | EmptyString => EmptyString
  | String _ s' => s'
  end.

(** [s.slice(0, -1)] drops the last code unit. *)
Fixpoint dropLast (s : string) : string :=
  match s with
  | EmptyString => EmptyString
  | String c s' =>
      match s' with
      | EmptyString => EmptyString
      | String _ _ => String c (dropLast s')
      end
  end.

Fixpoint lastIs (a : ascii) (s : string) : bool :=
  match s with
  | EmptyString => false
  | String c s' =>
      match s' with
      | EmptyString => Ascii.eqb c a
      | String _ _ => lastIs a s'
      end
  end.

(** The search order of the custom-view lookup in the words of the
    specification: the full name, the suffixes that start at the second
    segment, the third, ... down to the leaf, then "/" followed by the full
    name. *)
Fixpoint suffixes (segments : list string) : list (list string) :=
  match segments with
  | [] => []
  | _ :: rest => segments :: suffixes rest
  end.

Definition searchOrder (view_name : ViewName) : list ViewName :=
  match JS.split "/" view_name with
  | [] => []
  | _ :: rest =>
      view_name :: map (String.concat "/") (suffixes rest)
        ++ [("/" ++ view_name)%string]
  end.

(** The tag rule in the words of the specification: the user table first,
    then the built-in table, nothing when the tag is in neither. *)
Definition resolveTagRule (custom_tags CORE_CUSTOM_TAGS : CustomTags)
    (tag_name : TagName) : option (ViewName -> bool) :=
  match JS.get custom_tags tag_name with
  | Some rule => Some rule
  | None => JS.get CORE_CUSTOM_TAGS tag_name
  end.

(** Sorted for the order of [Array.prototype.sort]. *)
Definition sortedNames (l : list string) : Prop :=
  Sorted (fun a b => String.leb a b = true) l.

(** No name in both lists. *)
Definition disjointNames (l1 l2 : list string) : Prop :=
  forall x, In x l1 -> ~ In x l2.

(** A vault without files. *)
Definition empty_vault : Vault := {| getFiles := []; getCachedFiles := [] |}.

(** A configuration whose user table overrides the built-in "All" with the
    predicate of "Untagged". *)
Definition shadowing_config : Config := {|
  ALL_NAME := "All";
  UNTAGGED_NAME := "Untagged";
  OTHERS_NAME := "Others";
  ARCHIVE_NAME := "Archive";
  VIEWS_PATH := "Views";
  THINGS_PATH := "Things";
  CALCULATE_SUBFOLDER_UNINITIATED := true;
  CUSTOM_VIEWS := [("All", fun tag_names => Nat.eqb (List.length tag_names) 0)];
  CUSTOM_TAGS := []
|}.

(** A user view "Mine" that matches no thing, with its file in "Views". *)
Definition others_config : Config := {|
  ALL_NAME := "All";
  UNTAGGED_NAME := "Untagged";
  OTHERS_NAME := "Others";
  ARCHIVE_NAME := "Archive";
  VIEWS_PATH := "Views";
  THINGS_PATH := "Things";
  CALCULATE_SUBFOLDER_UNINITIATED := true;
  CUSTOM_VIEWS := [("Mine", fun _ => false)];
  CUSTOM_TAGS := []
|}.

Definition others_vault : Vault := {|
  getFiles := [];
  getCachedFiles := ["Views/Mine.md"]
|}.

(** One thing tagged "x" in the subfolder "a/b" of "Things". *)
Definition subfolder_vault : Vault := {|
  getFiles :=
    [ {| path := "Things/a/b/n.md";
         parent_path := "Things/a/b";
         frontmatter := Some {| tags := Some ["x"] |} |} ];
  getCachedFiles := ["Things/a/b/n.md"]
|}.

(** A view file and a script of the same base name in "Views". *)
Definition twin_vault : Vault := {|
  getFiles := [];
  getCachedFiles := ["Views/a.md"; "Views/a.js"]
|}.

(** ** [renderViewsList] *)

(** The constants of [user.js] that only [renderViewsList] reads.
    [core.js] reads [MERGE_VIEWS_IN_LIST] alone. *)
Record HomeConfig := {
  MERGE_VIEWS_IN_LIST : bool;
  REPLACE_VIEW_SPACES_WITH_SLASHES : bool;
  PINNED_VIEW_NAMES : list ViewName;
  PINNED_VIEW_NAME_PREFIX : string
}.

(** Keyword arguments of [renderViewsList]; [lk_pinned_prefix] exists in
    [part_003] only. *)
Record ListKwargs := {
  lk_pinned_view_names : option (list ViewName);
  lk_pinned_prefix : option string;
  lk_replace_spaces_with_slashes : option bool;
  lk_views_path : option string;
  lk_things_path : option string;
  lk_merge_views : option bool;
  lk_calculate_subfolder_uninitiated : option bool;
  lk_custom_views : option CustomViews;
  lk_custom_tags : option CustomTags
}.

(** The template literal [[[${views_path}/${name} | ${label}]]]. *)
Definition wikilink (views_path : string) (name : ViewName) (label : string)
    : string :=
  ("[[" ++ views_path ++ "/" ++ name ++ " | " ++ label ++ "]]")%string.

(** The first loop of [renderViewsList]: one [dv.paragraph] per pinned name.
    The paragraphs are listed in the order of the calls. *)
Fixpoint pinnedLoop (views_path pinned_prefix : string)
    (displayed : ViewName -> string) (pinned_view_names : list ViewName)
    : list string :=
  match pinned_view_names with
  | [] => []
  | name :: rest =>
      wikilink views_path name (pinned_prefix ++ displayed name)%string
      :: pinnedLoop views_path pinned_prefix displayed rest
  end.

(** The second loop: one [dv.paragraph] per view name that is not pinned. *)
Fixpoint listLoop (views_path : string) (displayed : ViewName -> string)
    (pinned_view_names : list ViewName) (view_names : list ViewName)
    : list string :=
  match view_names with
  | [] => []
  | name :: rest =>
      if JS.includes pinned_view_names name then
        listLoop views_path displayed pinned_view_names rest
      else
        wikilink views_path name (displayed name)
        :: listLoop views_path displayed pinned_view_names rest
  end.

(** The object literal that [renderViewsList] hands to [getAllViews]. *)
Definition viewsKwargsOf (kwargs : option ListKwargs) (views_path : string)
    : option ViewsKwargs :=
  Some {|
    vk_calculate_subfolder_uninitiated :=
      match kwargs with
      | Some k => lk_calculate_subfolder_uninitiated k
      | None => None
      end;
    vk_views_path := Some views_path;
    vk_things_path :=
      match kwargs with Some k => lk_things_path k | None => None end;
    vk_custom_views :=
      match kwargs with Some k => lk_custom_views k | None => None end;
    vk_custom_tags :=
      match kwargs with Some k => lk_custom_tags k | None => None end
  |}.

(** [renderViewsList(dv, kwargs)] of [src/config/core.js]: the paragraphs it
    hands to [dv.paragraph], in order.  The pin mark of the source is one
    character followed by a space; it is kept here as the bytes of the
    literal. *)
Module CoreJsHome.

Definition pin_mark : string := "🖈 ".

Definition renderViewsList (cfg : Config) (home : HomeConfig) (app : Vault)
    (kwargs : option ListKwargs) : list string :=
  let pinned_view_names := kwarg kwargs lk_pinned_view_names [] in
  let replace_spaces_with_slashes := kwarg kwargs lk_replace_spaces_with_slashes true in
  let views_path := kwarg kwargs lk_views_path (VIEWS_PATH cfg) in
  let merge_views := kwarg kwargs lk_merge_views (MERGE_VIEWS_IN_LIST home) in
  let views_path := trimSlashes views_path in
  let displayed name :=
    if replace_spaces_with_slashes then JS.replace " " "/" name else name in
  let pinned := pinnedLoop views_path pin_mark displayed pinned_view_names in
  let view_names := CoreJs.getAllViews cfg app (viewsKwargsOf kwargs views_path) in
  let view_names := initiated view_names ++ uninitiated view_names in
  let view_names := if merge_views then JS.sort view_names else view_names in
  pinned ++ listLoop views_path displayed pinned_view_names view_names.

End CoreJsHome.

(** [renderViewsList(dv, kwargs)] of [src/unnamed/part_003]. *)
Module Part003Home.

Definition renderViewsList (cfg : Config) (home : HomeConfig) (app : Vault)
    (kwargs : option ListKwargs) : list string :=
  let pinned_view_names := kwarg kwargs lk_pinned_view_names (PINNED_VIEW_NAMES home) in
  let pinned_prefix := kwarg kwargs lk_pinned_prefix (PINNED_VIEW_NAME_PREFIX home) in
  let replace_spaces_with_slashes :=
    kwarg kwargs lk_replace_spaces_with_slashes
          (REPLACE_VIEW_SPACES_WITH_SLASHES home) in
  let views_path := kwarg kwargs lk_views_path (VIEWS_PATH cfg) in
  let merge_views := kwarg kwargs lk_merge_views (MERGE_VIEWS_IN_LIST home) in
  let views_path := trimSlashes views_path in
  let displayed name :=
    if replace_spaces_with_slashes then JS.replaceAll " " "/" name else name in
  let pinned := pinnedLoop views_path pinned_prefix displayed pinned_view_names in
  let view_names := Part003.getAllViews cfg app (viewsKwargsOf kwargs views_path) in
  let view_names := initiated view_names ++ uninitiated view_names in
  let view_names := if merge_views then JS.sort view_names else view_names in
  pinned ++ listLoop views_path displayed pinned_view_names view_names.

End Part003Home.

(** [user.js] of [part_003] as shipped, for [renderViewsList]. *)
Definition default_home : HomeConfig := {|
  MERGE_VIEWS_IN_LIST := false;
  REPLACE_VIEW_SPACES_WITH_SLASHES := true;
  PINNED_VIEW_NAMES := ["All"; "Untagged"; "Others"];
  PINNED_VIEW_NAME_PREFIX := CoreJsHome.pin_mark
|}.

(** [s] holds the code unit [a]. *)
Fixpoint hasChar (a : ascii) (s : string) : bool :=
  match s with
  | EmptyString => false
  | String c s' => Ascii.eqb c a || hasChar a s'
  end.

(** The last path segment of a view name, on which the regular matcher
    works. *)
Definition leafName (view_name : ViewName) : string :=
  last (JS.split "/" (trimSlashes view_name)) "".

(** The first hierarchy level of a tag. *)
Definition firstSegment (tag_name : TagName) : string :=
  hd "" (JS.split "/" tag_name).

(** What one tag needs for the loop of the regular matcher to return
    [true] on the last path segment [leaf]. *)
Definition tagFits (leaf : string) (tag_name : TagName) : Prop :=
  if JS.str_includes leaf " "
  then exists rest, JS.split "/" tag_name = JS.split " " leaf ++ rest
  else firstSegment tag_name = leaf.

(** * Facts about the primitives *)

Section StringFacts.

Lemma substring_full (s : string) : String.substring 0 (String.length s) s = s.
Proof. induction s as [|c s IH]; simpl; [reflexivity | now rewrite IH]. Qed.

Lemma length_append (s t : string) :
  String.length (s ++ t) = String.length s + String.length t.
Proof. induction s as [|c s IH]; simpl; [reflexivity | now rewrite IH]. Qed.

Lemma append_assoc (s t u : string) : ((s ++ t) ++ u = s ++ t ++ u)%string.
Proof. induction s as [|c s IH]; simpl; [reflexivity | now rewrite IH]. Qed.

Lemma slice_1 (s : string) : JS.slice s 1 None = dropFirst s.
Proof.
  unfold JS.slice, JS.relativeIndex. simpl.
  destruct s as [|c s]; simpl; [reflexivity|].
  rewrite Nat.sub_0_r. apply substring_full.
Qed.

Lemma substring_0_dropLast (s : string) :
  String.substring 0 (String.length s - 1) s = dropLast s.
Proof.
  induction s as [|c s IH]; simpl; [reflexivity|].
  rewrite Nat.sub_0_r.
  destruct s as [|d s]; [reflexivity|].
  simpl in IH. rewrite Nat.sub_0_r in IH.
  cbn [String.length String.substring]. now rewrite IH.
Qed.

Lemma slice_0_m1 (s : string) : JS.slice s 0 (Some (-1)%Z) = dropLast s.
Proof.
  unfold JS.slice, JS.relativeIndex.
  replace (0 <? 0)%Z with false by reflexivity.
  replace (-1 <? 0)%Z with true by reflexivity.
  replace (Nat.min (Z.to_nat 0) (String.length s)) with 0 by reflexivity.
  rewrite Nat.sub_0_r.
  replace (Z.to_nat (Z.max (Z.of_nat (String.length s) + -1) 0))
    with (String.length s - 1) by lia.
  apply substring_0_dropLast.
Qed.

Lemma startsWith_char (a : ascii) (s : string) :
  JS.startsWith s (String a "") =
  match s with
  | EmptyString => false
  | String c _ => Ascii.eqb c a
  end.
Proof.
  unfold JS.startsWith. destruct s as [|c s]; simpl; [reflexivity|].
  destruct (Ascii.ascii_dec a c) as [->|Hne].
  - rewrite Ascii.eqb_refl. now destruct s.
  - symmetry. apply Ascii.eqb_neq. congruence.
Qed.

Lemma endsWith_char (a : ascii) (s : string) :
  JS.endsWith s (String a "") = lastIs a s.
Proof.
  unfold JS.endsWith. cbn [String.length].
  induction s as [|c s IH]; [reflexivity|].
  destruct s as [|d s].
  - simpl. now destruct (Ascii.eqb c a).
  - change (lastIs a (String c (String d s))) with (lastIs a (String d s)).
    rewrite <- IH. cbn [String.length].
    replace (S (S (String.length s)) - 1) with (S (S (String.length s) - 1)) by lia.
    reflexivity.
Qed.

Lemma trimSlashes_struct (s : string) :
  trimSlashes s =
  let s1 := if JS.startsWith s "/" then dropFirst s else s in
  if lastIs "/" s1 then dropLast s1 else s1.
Proof.
  unfold trimSlashes. cbv zeta.
  rewrite slice_1, endsWith_char, slice_0_m1. reflexivity.
Qed.

Lemma lastIs_append_char (a : ascii) (s : string) :
  lastIs a (s ++ String a "") = true.
Proof.
  induction s as [|c s IH]; simpl.
  - apply Ascii.eqb_refl.
  - destruct (s ++ String a "")%string eqn:E; [now destruct s | exact IH].
Qed.

Lemma dropLast_append_char (a : ascii) (s : string) :
  dropLast (s ++ String a "") = s.
Proof.
  induction s as [|c s IH]; simpl; [reflexivity|].
  destruct (s ++ String a "")%string eqn:E; [now destruct s | now rewrite IH].
Qed.

Lemma length_dropLast (s : string) :
  String.length (dropLast s) = String.length s - 1.
Proof.
  induction s as [|c s IH]; [reflexivity|].
  destruct s as [|d s]; [reflexivity|].
  cbn [dropLast String.length] in *. rewrite IH. lia.
Qed.

Lemma lastIs_nonempty (a : ascii) (s : string) :
  lastIs a s = true -> 0 < String.length s.
Proof. destruct s; simpl; [discriminate | lia]. Qed.

(** [trimSlashes] leaves a string alone exactly when it has no "/" at either
    end. *)
Lemma trimSlashes_fixed_iff (s : string) :
  trimSlashes s = s <->
  JS.startsWith s "/" = false /\ JS.endsWith s "/" = false.
Proof.
  rewrite trimSlashes_struct, endsWith_char. cbv zeta.
  split.
  - intros H.
    assert (Hlen : String.length
              (let s1 := if JS.startsWith s "/" then dropFirst s else s in
               if lastIs "/" s1 then dropLast s1 else s1) = String.length s)
      by (cbv zeta; now rewrite H).
    cbv zeta in Hlen.
    destruct (JS.startsWith s "/") eqn:Hs.
    + exfalso. rewrite startsWith_char in Hs.
      destruct s as [|c s]; [discriminate|]. cbn [dropFirst String.length] in Hlen.
      destruct (lastIs "/" s); [rewrite length_dropLast in Hlen|]; lia.
    + split; [reflexivity|].
      destruct (lastIs "/" s) eqn:Hl; [|reflexivity].
      exfalso. apply lastIs_nonempty in Hl.
      rewrite length_dropLast in Hlen. lia.
  - intros [-> ->]. reflexivity.
Qed.

End StringFacts.

(** * The name normalizer *)

(** C4, as amended.  [trimSlashes] strips one leading and one trailing "/"
    and nothing more: whatever stands between one "/" at each end is
    returned as it is, slashes included.  Trimming twice gives the same as
    trimming once exactly when the trimmed string has no "/" left at either
    end; ["/a/b/"] and ["a/b"] both trim to ["a/b"]. *)
Theorem trimSlashes_single_strip :
  (forall s, trimSlashes ("/" ++ s ++ "/") = s) /\
  (forall s, JS.endsWith s "/" = false -> trimSlashes ("/" ++ s) = s) /\
  (forall s, JS.startsWith s "/" = false -> trimSlashes (s ++ "/") = s) /\
  (forall s, JS.startsWith s "/" = false -> JS.endsWith s "/" = false ->
             trimSlashes s = s) /\
  (forall x, trimSlashes (trimSlashes x) = trimSlashes x <->
             JS.startsWith (trimSlashes x) "/" = false /\
             JS.endsWith (trimSlashes x) "/" = false) /\
  trimSlashes "/a/b/" = "a/b" /\
  trimSlashes "a/b" = "a/b".
Proof.
  refine (conj _ (conj _ (conj _ (conj _ (conj _ (conj _ _)))))).
  - intros s. rewrite trimSlashes_struct. cbv zeta.
    rewrite startsWith_char. cbn [append dropFirst].
    rewrite Ascii.eqb_refl.
    now rewrite lastIs_append_char, dropLast_append_char.
  - intros s Hs. rewrite trimSlashes_struct. cbv zeta.
    rewrite startsWith_char. cbn [append dropFirst].
    rewrite Ascii.eqb_refl.
    rewrite endsWith_char in Hs. now rewrite Hs.
  - intros s Hs. rewrite trimSlashes_struct. cbv zeta.
    rewrite startsWith_char in *.
    destruct s as [|c s]; [reflexivity|].
    cbn [append]. rewrite Hs.
    change (String c (s ++ "/")) with (String c s ++ "/")%string.
    now rewrite lastIs_append_char, dropLast_append_char.
  - intros s Hs He. now apply trimSlashes_fixed_iff.
  - intros x. apply trimSlashes_fixed_iff.
  - reflexivity.
  - reflexivity.
Qed.

Lemma trimSlashes_single_strip_witness :
  trimSlashes ("/" ++ "a/b") = "a/b" /\
  trimSlashes ("a/b" ++ "/") = "a/b" /\
  trimSlashes "a/b" = "a/b".
Proof.
  destruct trimSlashes_single_strip as (_ & H2 & H3 & H4 & _).
  split; [| split].
  - apply (H2 "a/b"). reflexivity.
  - apply (H3 "a/b"). reflexivity.
  - apply (H4 "a/b"); reflexivity.
Defined.

(** C4 as stated fails: a doubled leading "/" survives the first trim and
    falls to the second. *)
Lemma trimSlashes_not_idempotent :
  ~ (forall x, trimSlashes (trimSlashes x) = trimSlashes x).
Proof. intros H. specialize (H "//a"). discriminate H. Qed.

(** * The regular matcher *)

(** C9.  The four equations of the regular matcher. *)
Theorem regularViewMatchesTags_examples :
  regularViewMatchesTags "a b" ["a/b/c"] = true /\
  regularViewMatchesTags "a b" ["a/x"] = false /\
  regularViewMatchesTags "x" ["x/y"] = true /\
  regularViewMatchesTags "x" [] = false.
Proof. repeat split; reflexivity. Qed.

(** * Initiated view names *)

(** Every cached path that begins with the trimmed views path is kept,
    whatever follows the prefix. *)
Lemma getInitiatedViewNames_keeps_prefixed cfg app views_path p :
  In p (getCachedFiles app) ->
  JS.startsWith p (trimSlashes views_path) = true ->
  In (JS.slice p (Z.of_nat (String.length (trimSlashes views_path) + 1)) (Some (-3)%Z))
     (getInitiatedViewNames cfg app (Some views_path)).
Proof.
  intros Hin Hp. unfold getInitiatedViewNames.
  apply in_map with (f := fun path =>
    JS.slice path (Z.of_nat (String.length (trimSlashes views_path) + 1)) (Some (-3)%Z)).
  apply filter_In. split; assumption.
Qed.

(** C10.  The filter of [getInitiatedViewNames] is a bare prefix test: with
    the views path "Views", the file "ViewsExtra/a.md" of a sibling folder
    (its path does not begin with "Views/") is listed, under the name
    "xtra/a". *)
Theorem getInitiatedViewNames_prefix_only :
  exists (app : Vault) (p : string),
    In p (getCachedFiles app) /\
    p = "ViewsExtra/a.md" /\
    JS.startsWith p "Views/" = false /\
    JS.startsWith p "Views" = true /\
    getInitiatedViewNames default_config app (Some "Views") = ["xtra/a"] /\
    getInitiatedViewNames default_config app None = ["xtra/a"].
Proof.
  exists {| getFiles := []; getCachedFiles := ["ViewsExtra/a.md"] |}, "ViewsExtra/a.md".
  repeat split; try reflexivity. simpl. now left.
Qed.

(** * Facts about arrays, tables and sorting *)

Section ArrayFacts.

Lemma includes_In (arr : list string) (x : string) :
  JS.includes arr x = true <-> In x arr.
Proof.
  unfold JS.includes. rewrite existsb_exists. split.
  - intros (y & Hy & He). apply String.eqb_eq in He. now subst.
  - intros H. exists x. split; [assumption | apply String.eqb_refl].
Qed.

Lemma includes_false (arr : list string) (x : string) :
  JS.includes arr x = false <-> ~ In x arr.
Proof.
  rewrite <- includes_In. destruct (JS.includes arr x); split; congruence.
Qed.

Lemma get_Some_keys {V} (o : JS.object V) (k : string) (v : V) :
  JS.get o k = Some v -> In k (JS.keys o).
Proof.
  induction o as [|[k' v'] o IH]; simpl; [discriminate|].
  destruct (String.eqb_spec k k') as [->|Hne]; [now left | right; auto].
Qed.

Lemma get_None_keys {V} (o : JS.object V) (k : string) :
  JS.get o k = None <-> ~ In k (JS.keys o).
Proof.
  induction o as [|[k' v'] o IH]; simpl; [tauto|].
  destruct (String.eqb_spec k k') as [->|Hne].
  - split; [discriminate | intros H; exfalso; apply H; now left].
  - rewrite IH. split; [intros H [E|I]; [congruence | tauto] | tauto].
Qed.

(** Under [Object.keys(o).includes(k)] the entry [o[k]] is a function. *)
Lemma get_keys {V} (o : JS.object V) (k : string) :
  In k (JS.keys o) -> exists v, JS.get o k = Some v.
Proof.
  intros H. destruct (JS.get o k) eqn:E; [eauto|].
  apply get_None_keys in E. contradiction.
Qed.

Lemma call_get {A} (o : JS.object (A -> bool)) (k : string) f (x : A) :
  JS.get o k = Some f -> JS.call o k x = f x.
Proof. unfold JS.call. now intros ->. Qed.

Lemma keys_set {V W} (o : JS.object V) (o' : JS.object W) k v w :
  JS.keys o = JS.keys o' -> JS.keys (JS.set o k v) = JS.keys (JS.set o' k w).
Proof.
  revert o'. induction o as [|[k1 v1] o IH]; intros [|[k2 v2] o'] H;
    simpl in *; try discriminate; [reflexivity|].
  injection H as -> H.
  destruct (String.eqb k k2); simpl; [now rewrite H | f_equal; auto].
Qed.

Lemma set_add_In (set : list string) (x y : string) :
  In y (JS.set_add set x) <-> In y set \/ y = x.
Proof.
  unfold JS.set_add. destruct (JS.includes set x) eqn:E.
  - apply includes_In in E. split; [tauto | intros [H | ->]; assumption].
  - rewrite in_app_iff. simpl. intuition (subst; auto).
Qed.

Lemma sort_insert_In (x y : string) (l : list string) :
  In y (JS.sort_insert x l) <-> y = x \/ In y l.
Proof.
  induction l as [|z l IH]; simpl.
  - split; intros [H|H]; auto.
  - destruct (String.leb x z); simpl; [|rewrite IH]; split; intuition auto.
Qed.

Lemma sort_In (y : string) (l : list string) : In y (JS.sort l) <-> In y l.
Proof.
  induction l as [|x l IH]; simpl; [tauto|].
  rewrite sort_insert_In, IH. split; intuition auto.
Qed.

Lemma sort_insert_NoDup (x : string) (l : list string) :
  ~ In x l -> NoDup l -> NoDup (JS.sort_insert x l).
Proof.
  induction l as [|z l IH]; simpl; intros Hx Hl.
  - constructor; [tauto | constructor].
  - destruct (String.leb x z).
    + constructor; [simpl; tauto | assumption].
    + inversion Hl as [|? ? Hz Hl']; subst. constructor.
      * rewrite sort_insert_In. intros [->|H]; [apply Hx; now left | contradiction].
      * apply IH; [tauto | assumption].
Qed.

Lemma sort_NoDup (l : list string) : NoDup l -> NoDup (JS.sort l).
Proof.
  induction 1 as [|x l Hx Hl IH]; simpl; [constructor|].
  apply sort_insert_NoDup; [now rewrite sort_In | assumption].
Qed.

Lemma sort_insert_sorted (x : string) (l : list string) :
  sortedNames l -> sortedNames (JS.sort_insert x l).
Proof.
  unfold sortedNames. induction l as [|z l IH]; simpl; intros Hl.
  - repeat constructor.
  - destruct (String.leb x z) eqn:E.
    + constructor; [assumption | now constructor].
    + inversion Hl as [|? ? Hl' Hhd]; subst.
      constructor; [now apply IH|].
      assert (Hzx : String.leb z x = true)
        by (destruct (String.leb_total x z); congruence).
      destruct l as [|w l]; simpl; [now constructor|].
      destruct (String.leb x w); constructor; [assumption|].
      now inversion Hhd.
Qed.

Lemma sort_sorted (l : list string) : sortedNames (JS.sort l).
Proof.
  induction l as [|x l IH]; simpl; [constructor | now apply sort_insert_sorted].
Qed.

End ArrayFacts.

(** * The view resolver *)

Section ResolverFacts.

Lemma split_nonempty (sep : ascii) (s : string) : JS.split sep s <> [].
Proof.
  destruct s as [|c s]; simpl; [discriminate|].
  destruct (Ascii.eqb c sep); [discriminate|].
  destruct (JS.split sep s); discriminate.
Qed.

Lemma concat_cons (sep x : string) (l : list string) :
  l <> [] -> String.concat sep (x :: l) = (x ++ sep ++ String.concat sep l)%string.
Proof. destruct l; [contradiction | reflexivity]. Qed.

(** Joining what [split] returns gives the string back. *)
Lemma concat_split (sep : ascii) (s : string) :
  String.concat (String sep "") (JS.split sep s) = s.
Proof.
  induction s as [|c s IH]; [reflexivity|].
  pose proof (split_nonempty sep s) as Hn.
  cbn [JS.split]. destruct (Ascii.eqb_spec c sep) as [->|Hne].
  - rewrite concat_cons by assumption. rewrite IH. reflexivity.
  - destruct (JS.split sep s) as [|h t] eqn:E; [contradiction|].
    destruct t as [|h' t].
    + cbn [String.concat] in *. now rewrite IH.
    + rewrite concat_cons by discriminate.
      rewrite concat_cons in IH by discriminate.
      cbn [append] in *. now rewrite IH.
Qed.

(** The [while] loop prepends the joined suffixes, longest first. *)
Lemma unshiftLoop_suffixes (popped sfx : list string) (rest : list ViewName) :
  sfx <> [] ->
  unshiftLoop popped (map (String.concat "/") (suffixes sfx) ++ rest) =
  map (String.concat "/") (suffixes (rev popped ++ sfx)) ++ rest.
Proof.
  revert sfx. induction popped as [|x popped IH]; intros sfx Hs; [reflexivity|].
  destruct sfx as [|s0 sfx']; [contradiction|].
  cbn [unshiftLoop rev]. rewrite <- app_assoc. cbn [app].
  rewrite <- (IH (x :: s0 :: sfx')) by discriminate.
  reflexivity.
Qed.

Lemma matching_view_names_suffixes (view_name : ViewName) :
  matching_view_names view_name =
  map (String.concat "/") (suffixes (JS.split "/" view_name))
    ++ [("/" ++ view_name)%string].
Proof.
  unfold matching_view_names.
  pose proof (split_nonempty "/" view_name) as Hn.
  set (l := JS.split "/" view_name) in *.
  change (last l "" :: [("/" ++ view_name)%string])
    with (map (String.concat "/") (suffixes [last l ""]) ++ [("/" ++ view_name)%string]).
  rewrite unshiftLoop_suffixes by discriminate.
  rewrite rev_involutive, <- app_removelast_last by assumption.
  reflexivity.
Qed.

(** The list built by the code is the search order of the specification. *)
Lemma matching_view_names_searchOrder (view_name : ViewName) :
  matching_view_names view_name = searchOrder view_name.
Proof.
  rewrite matching_view_names_suffixes. unfold searchOrder.
  pose proof (concat_split "/" view_name) as Hc.
  destruct (JS.split "/" view_name) as [|s1 rest] eqn:E.
  - now apply split_nonempty in E.
  - cbn [suffixes map app]. now rewrite Hc.
Qed.

Variables (custom_views CORE_CUSTOM_VIEWS : CustomViews).
Variables (custom_tags CORE_CUSTOM_TAGS : CustomTags).

Lemma viewRuleLoop_skip (before names : list ViewName) (tag_names : list TagName) :
  (forall u, In u before ->
     ~ In u (JS.keys custom_views) /\ ~ In u (JS.keys CORE_CUSTOM_VIEWS)) ->
  viewRuleLoop custom_views CORE_CUSTOM_VIEWS (before ++ names) tag_names =
  viewRuleLoop custom_views CORE_CUSTOM_VIEWS names tag_names.
Proof.
  induction before as [|u before IH]; intros H; [reflexivity|].
  cbn [app viewRuleLoop].
  destruct (H u (or_introl eq_refl)) as [Hu Hc].
  apply includes_false in Hu, Hc. rewrite Hu, Hc.
  apply IH. intros w Hw. apply H. now right.
Qed.

Lemma viewRuleLoop_none (names : list ViewName) (tag_names : list TagName) :
  (forall u, In u names ->
     ~ In u (JS.keys custom_views) /\ ~ In u (JS.keys CORE_CUSTOM_VIEWS)) ->
  viewRuleLoop custom_views CORE_CUSTOM_VIEWS names tag_names = None.
Proof.
  intros H. rewrite <- (app_nil_r names). now rewrite viewRuleLoop_skip.
Qed.

(** The tag loop runs to its end when no tag has a rule. *)
Lemma tagRulesPass_no_rule (view_name : ViewName) (tag_names : list TagName) :
  (forall t, In t tag_names ->
     ~ In t (JS.keys custom_tags) /\ ~ In t (JS.keys CORE_CUSTOM_TAGS)) ->
  tagRulesPass custom_tags CORE_CUSTOM_TAGS view_name tag_names = true.
Proof.
  induction tag_names as [|t tag_names IH]; intros H; [reflexivity|].
  cbn [tagRulesPass].
  destruct (H t (or_introl eq_refl)) as [Hu Hc].
  apply includes_false in Hu, Hc. rewrite Hu, Hc.
  apply IH. intros w Hw. apply H. now right.
Qed.

(** The tag loop returns [false] on a tag whose resolved rule rejects the
    view name. *)
Lemma tagRulesPass_rejects (view_name : ViewName) (t : TagName) rule :
  resolveTagRule custom_tags CORE_CUSTOM_TAGS t = Some rule ->
  rule view_name = false ->
  tagRulesPass custom_tags CORE_CUSTOM_TAGS view_name [t] = false.
Proof.
  unfold resolveTagRule. intros Hr Hv. cbn [tagRulesPass].
  destruct (JS.get custom_tags t) as [r|] eqn:Eu.
  - injection Hr as ->.
    pose proof (get_Some_keys _ _ _ Eu) as Hin. apply includes_In in Hin.
    rewrite Hin, (call_get _ _ _ _ Eu), Hv. reflexivity.
  - apply get_None_keys, includes_false in Eu. rewrite Eu.
    pose proof (get_Some_keys _ _ _ Hr) as Hin. apply includes_In in Hin.
    rewrite Hin, (call_get _ _ _ _ Hr), Hv. reflexivity.
Qed.

End ResolverFacts.

(** The body shared by both revisions, for any pair of built-in tables. *)
Section ResolverGeneric.

Variable CORE_CUSTOM_VIEWS : CustomViews.
Variable CORE_CUSTOM_TAGS : CustomTags.
Variable cfg : Config.

Let matches := viewMatchesTagsWith CORE_CUSTOM_VIEWS CORE_CUSTOM_TAGS cfg.

Lemma matches_first_variant V T kwargs before v after :
  let custom_views := kwarg kwargs mk_custom_views (CUSTOM_VIEWS cfg) in
  let custom_tags := kwarg kwargs mk_custom_tags (CUSTOM_TAGS cfg) in
  let tag_names := match T with None => [] | Some t => t end in
  searchOrder (trimSlashes V) = before ++ v :: after ->
  (forall u, In u before ->
     ~ In u (JS.keys custom_views) /\ ~ In u (JS.keys CORE_CUSTOM_VIEWS)) ->
  tagRulesPass custom_tags CORE_CUSTOM_TAGS (trimSlashes V) tag_names = true ->
  (forall pred, JS.get custom_views v = Some pred ->
     matches V T kwargs = pred tag_names) /\
  (JS.get custom_views v = None ->
   forall pred, JS.get CORE_CUSTOM_VIEWS v = Some pred ->
     matches V T kwargs = pred tag_names).
Proof.
  intros custom_views custom_tags tag_names Hs Hb Hp.
  unfold matches, viewMatchesTagsWith.
  fold custom_views custom_tags tag_names.
  rewrite Hp. cbn [negb].
  rewrite matching_view_names_searchOrder, Hs, viewRuleLoop_skip by assumption.
  cbn [viewRuleLoop]. split.
  - intros pred Hg.
    pose proof (get_Some_keys _ _ _ Hg) as Hin. apply includes_In in Hin.
    now rewrite Hin, (call_get _ _ _ _ Hg).
  - intros Hn pred Hg.
    apply get_None_keys, includes_false in Hn. rewrite Hn.
    pose proof (get_Some_keys _ _ _ Hg) as Hin. apply includes_In in Hin.
    now rewrite Hin, (call_get _ _ _ _ Hg).
Qed.

Lemma matches_tag_rule_false V t kwargs rule :
  resolveTagRule (kwarg kwargs mk_custom_tags (CUSTOM_TAGS cfg)) CORE_CUSTOM_TAGS t
    = Some rule ->
  rule (trimSlashes V) = false ->
  matches V (Some [t]) kwargs = false.
Proof.
  intros Hr Hv. unfold matches, viewMatchesTagsWith.
  now rewrite (tagRulesPass_rejects _ _ _ _ _ Hr Hv).
Qed.

Lemma matches_regular V T kwargs :
  (forall v, In v (matching_view_names (trimSlashes V)) ->
     ~ In v (JS.keys (kwarg kwargs mk_custom_views (CUSTOM_VIEWS cfg))) /\
     ~ In v (JS.keys CORE_CUSTOM_VIEWS)) ->
  (forall t, In t T ->
     ~ In t (JS.keys (kwarg kwargs mk_custom_tags (CUSTOM_TAGS cfg))) /\
     ~ In t (JS.keys CORE_CUSTOM_TAGS)) ->
  matches V (Some T) kwargs = regularViewMatchesTags (trimSlashes V) T.
Proof.
  intros Hv Ht. unfold matches, viewMatchesTagsWith.
  rewrite tagRulesPass_no_rule by assumption. cbn [negb].
  now rewrite viewRuleLoop_none.
Qed.

End ResolverGeneric.

(** [regularViewMatchesTags] trims once more, which changes nothing on a name
    already free of "/" at both ends. *)
Lemma regularViewMatchesTags_trimmed (V : ViewName) (T : list TagName) :
  trimSlashes (trimSlashes V) = trimSlashes V ->
  regularViewMatchesTags (trimSlashes V) T = regularViewMatchesTags V T.
Proof. intros H. unfold regularViewMatchesTags. now rewrite H. Qed.

(** C5.  In [viewMatchesTags] the names tried for a custom view are, in this
    order, the full trimmed name, its suffixes from the second segment on
    down to the leaf, and "/" followed by the full name; at each name the
    user table is asked before the built-in one, and the result is the
    predicate of the first name that is a key, applied to the tag list. *)
Theorem viewMatchesTags_search_order cfg app V T kwargs :
  let custom_views := kwarg kwargs mk_custom_views (CUSTOM_VIEWS cfg) in
  let custom_tags := kwarg kwargs mk_custom_tags (CUSTOM_TAGS cfg) in
  let core_views := CoreJs.CORE_CUSTOM_VIEWS cfg app in
  let tag_names := match T with None => [] | Some t => t end in
  matching_view_names (trimSlashes V) = searchOrder (trimSlashes V) /\
  forall before v after,
    searchOrder (trimSlashes V) = before ++ v :: after ->
    (forall u, In u before ->
       ~ In u (JS.keys custom_views) /\ ~ In u (JS.keys core_views)) ->
    tagRulesPass custom_tags CoreJs.CORE_CUSTOM_TAGS (trimSlashes V) tag_names = true ->
    (forall pred, JS.get custom_views v = Some pred ->
       CoreJs.viewMatchesTags cfg app V T kwargs = pred tag_names) /\
    (JS.get custom_views v = None ->
     forall pred, JS.get core_views v = Some pred ->
       CoreJs.viewMatchesTags cfg app V T kwargs = pred tag_names).
Proof.
  intros custom_views custom_tags core_views tag_names.
  split; [apply matching_view_names_searchOrder|].
  intros before v after Hs Hb Hp.
  exact (matches_first_variant _ _ cfg V T kwargs before v after Hs Hb Hp).
Qed.

(** The same lookup in [part_003]. *)
Theorem viewMatchesTags_search_order_part003 cfg app V T kwargs :
  let custom_views := kwarg kwargs mk_custom_views (CUSTOM_VIEWS cfg) in
  let custom_tags := kwarg kwargs mk_custom_tags (CUSTOM_TAGS cfg) in
  let core_views := Part003.CORE_CUSTOM_VIEWS cfg app in
  let tag_names := match T with None => [] | Some t => t end in
  matching_view_names (trimSlashes V) = searchOrder (trimSlashes V) /\
  forall before v after,
    searchOrder (trimSlashes V) = before ++ v :: after ->
    (forall u, In u before ->
       ~ In u (JS.keys custom_views) /\ ~ In u (JS.keys core_views)) ->
    tagRulesPass custom_tags (Part003.CORE_CUSTOM_TAGS cfg) (trimSlashes V) tag_names
      = true ->
    (forall pred, JS.get custom_views v = Some pred ->
       Part003.viewMatchesTags cfg app V T kwargs = pred tag_names) /\
    (JS.get custom_views v = None ->
     forall pred, JS.get core_views v = Some pred ->
       Part003.viewMatchesTags cfg app V T kwargs = pred tag_names).
Proof.
  intros custom_views custom_tags core_views tag_names.
  split; [apply matching_view_names_searchOrder|].
  intros before v after Hs Hb Hp.
  exact (matches_first_variant _ _ cfg V T kwargs before v after Hs Hb Hp).
Qed.

Lemma viewMatchesTags_search_order_witness :
  searchOrder (trimSlashes "/x/All/") = ["x/All"; "All"; "/x/All"] /\
  CoreJs.viewMatchesTags shadowing_config empty_vault "/x/All/" (Some ["t"]) None = false.
Proof.
  split; [reflexivity|].
  refine (proj1 (proj2 (viewMatchesTags_search_order shadowing_config empty_vault
                          "/x/All/" (Some ["t"]) None)
                   ["x/All"] "All" ["/x/All"] eq_refl _ eq_refl) _ eq_refl).
  intros u [<-|[]]. split; simpl; intros H;
    repeat (destruct H as [H|H]; [discriminate H|]); exact H.
Defined.

(** C6, as amended.  When the rule that resolves for a tag [t] (user table
    first, then built-in) returns false on the trimmed view name
    [trimSlashes V], [viewMatchesTags V [t]] is false, whatever the view
    rules and the regular matcher say. *)
Theorem viewMatchesTags_tag_rule_false cfg app V t kwargs rule :
  resolveTagRule (kwarg kwargs mk_custom_tags (CUSTOM_TAGS cfg))
                 CoreJs.CORE_CUSTOM_TAGS t = Some rule ->
  rule (trimSlashes V) = false ->
  CoreJs.viewMatchesTags cfg app V (Some [t]) kwargs = false.
Proof. apply matches_tag_rule_false. Qed.

Lemma viewMatchesTags_tag_rule_false_witness :
  CoreJs.viewMatchesTags default_config empty_vault "/All/" (Some ["Archive"]) None
  = false.
Proof.
  apply (viewMatchesTags_tag_rule_false default_config empty_vault "/All/" "Archive"
           None (fun view_name => String.eqb view_name "Archive"));
    reflexivity.
Defined.

(** C6 as stated fails: the rule of the built-in tag "Archive" is false on
    the view name "/Archive", yet the view matches, because the rule is asked
    about the trimmed name "Archive". *)
Lemma viewMatchesTags_tag_rule_sees_trimmed_name :
  exists rule,
    resolveTagRule (CUSTOM_TAGS default_config) CoreJs.CORE_CUSTOM_TAGS "Archive"
      = Some rule /\
    rule "/Archive" = false /\
    CoreJs.viewMatchesTags default_config empty_vault "/Archive" (Some ["Archive"]) None
      = true.
Proof.
  exists (fun view_name => String.eqb view_name "Archive").
  repeat split; reflexivity.
Qed.

(** C7, as amended.  When no name of the search order of the trimmed view
    name is a key of either custom-view table and no tag of [T] is a key of
    either custom-tag table, [viewMatchesTags V T] is
    [regularViewMatchesTags (trimSlashes V) T]; this is
    [regularViewMatchesTags V T] when the trimmed name has no "/" left to
    trim. *)
Theorem viewMatchesTags_regular_fallback cfg app V T kwargs :
  (forall v, In v (searchOrder (trimSlashes V)) ->
     ~ In v (JS.keys (kwarg kwargs mk_custom_views (CUSTOM_VIEWS cfg))) /\
     ~ In v (JS.keys (CoreJs.CORE_CUSTOM_VIEWS cfg app))) ->
  (forall t, In t T ->
     ~ In t (JS.keys (kwarg kwargs mk_custom_tags (CUSTOM_TAGS cfg))) /\
     ~ In t (JS.keys CoreJs.CORE_CUSTOM_TAGS)) ->
  CoreJs.viewMatchesTags cfg app V (Some T) kwargs
    = regularViewMatchesTags (trimSlashes V) T /\
  (trimSlashes (trimSlashes V) = trimSlashes V ->
   CoreJs.viewMatchesTags cfg app V (Some T) kwargs = regularViewMatchesTags V T).
Proof.
  intros Hv Ht.
  assert (H : CoreJs.viewMatchesTags cfg app V (Some T) kwargs
              = regularViewMatchesTags (trimSlashes V) T).
  { apply matches_regular; [|assumption].
    intros v Hin. apply Hv. now rewrite <- matching_view_names_searchOrder. }
  split; [assumption|].
  intros Hfix. now rewrite H, regularViewMatchesTags_trimmed.
Qed.

Ltac not_a_key :=
  simpl; intros H; repeat (destruct H as [H|H]; [discriminate H|]); exact H.

Lemma viewMatchesTags_regular_fallback_witness :
  CoreJs.viewMatchesTags default_config empty_vault "/proj web/" (Some ["proj/web/ui"]) None
    = regularViewMatchesTags "/proj web/" ["proj/web/ui"].
Proof.
  refine (proj2 (viewMatchesTags_regular_fallback default_config empty_vault
                   "/proj web/" ["proj/web/ui"] None _ _) eq_refl).
  - intros v [<-|[<-|[]]]; split; not_a_key.
  - intros t [<-|[]]; split; not_a_key.
Defined.

(** C7 as stated fails: "a//" trims to "a/", no custom rule applies, and the
    fallback trims "a/" again to "a", which matches the tag "a"; the regular
    matcher called on "a//" itself compares the empty last segment of "a/". *)
Lemma viewMatchesTags_regular_differs :
  (forall v, In v (searchOrder "a//" ++ searchOrder (trimSlashes "a//")) ->
     ~ In v (JS.keys (CUSTOM_VIEWS default_config)) /\
     ~ In v (JS.keys (CoreJs.CORE_CUSTOM_VIEWS default_config empty_vault))) /\
  (forall t, In t ["a"] ->
     ~ In t (JS.keys (CUSTOM_TAGS default_config)) /\
     ~ In t (JS.keys CoreJs.CORE_CUSTOM_TAGS)) /\
  CoreJs.viewMatchesTags default_config empty_vault "a//" (Some ["a"]) None = true /\
  regularViewMatchesTags "a//" ["a"] = false.
Proof.
  split; [|split; [|split; reflexivity]].
  - intros v Hin. simpl in Hin.
    repeat (destruct Hin as [<-|Hin]; [split; not_a_key|]). contradiction.
  - intros t [<-|[]]; split; not_a_key.
Qed.

(** * The built-in views *)

Lemma tagRulesPass_default_unarchived core_tags (view_name : ViewName)
    (T : list TagName) :
  JS.keys core_tags = ["Archive"] ->
  ~ In "Archive" T ->
  tagRulesPass [] core_tags view_name T = true.
Proof.
  intros Hk Hn. apply tagRulesPass_no_rule. intros t Ht. split; [tauto|].
  rewrite Hk. simpl. intros [<-|[]]. contradiction.
Qed.

(** C1, as amended.  With the shipped configuration (default names, empty
    user tables), [viewMatchesTags "All" T] is true for every tag list [T]
    that does not hold the tag "Archive", and for an absent tag list. *)
Theorem viewMatchesTags_All app T :
  ~ In "Archive" T ->
  CoreJs.viewMatchesTags default_config app "All" (Some T) None = true /\
  CoreJs.viewMatchesTags default_config app "All" None None = true /\
  Part003.viewMatchesTags default_config app "All" (Some T) None = true.
Proof.
  intros Hn. split; [|split; [reflexivity|]].
  - refine (proj2 (matches_first_variant
                     (CoreJs.CORE_CUSTOM_VIEWS default_config app)
                     CoreJs.CORE_CUSTOM_TAGS default_config "All" (Some T) None
                     [] "All" ["/All"] eq_refl _ _) eq_refl (fun _ => true) eq_refl).
    + intros u [].
    + now apply tagRulesPass_default_unarchived.
  - refine (proj2 (matches_first_variant
                     (Part003.CORE_CUSTOM_VIEWS default_config app)
                     (Part003.CORE_CUSTOM_TAGS default_config) default_config
                     "All" (Some T) None
                     [] "All" ["/All"] eq_refl _ _) eq_refl (fun _ => true) eq_refl).
    + intros u [].
    + now apply tagRulesPass_default_unarchived.
Qed.

Lemma viewMatchesTags_All_witness :
  CoreJs.viewMatchesTags default_config empty_vault "All" (Some ["proj/web"; "x"]) None
    = true.
Proof.
  refine (proj1 (viewMatchesTags_All empty_vault ["proj/web"; "x"] _)).
  simpl. intros H. repeat (destruct H as [H|H]; [discriminate H|]). exact H.
Defined.

(** C1 as stated fails: the built-in tag "Archive" hides a thing from every
    view but "Archive", "All" included. *)
Lemma viewMatchesTags_All_archived :
  CoreJs.viewMatchesTags default_config empty_vault "All" (Some ["Archive"]) None = false /\
  Part003.viewMatchesTags default_config empty_vault "All" (Some ["Archive"]) None = false.
Proof. split; reflexivity. Qed.

Section OthersFacts.

Lemma keys_set_In {V} (o : JS.object V) (k : string) (v : V) (x : string) :
  In x (JS.keys (JS.set o k v)) <-> In x (JS.keys o) \/ x = k.
Proof.
  induction o as [|[k' v'] o IH]; simpl.
  - intuition auto.
  - destruct (String.eqb_spec k k') as [->|Hne]; simpl.
    + intuition auto.
    + rewrite IH. intuition auto.
Qed.

Lemma get_set_same {V} (o : JS.object V) (k : string) (v : V) :
  JS.get (JS.set o k v) k = Some v.
Proof.
  induction o as [|[k' v'] o IH]; simpl.
  - now rewrite String.eqb_refl.
  - destruct (String.eqb_spec k k') as [->|Hne]; simpl.
    + now rewrite String.eqb_refl.
    + destruct (String.eqb_spec k k'); [contradiction | assumption].
Qed.

(** [Object.keys(CORE_CUSTOM_VIEWS)] in [part_003]: the three configured
    names. *)
Lemma Part003_core_keys cfg app :
  JS.keys (Part003.CORE_CUSTOM_VIEWS cfg app) = Part003.core_custom_view_names cfg.
Proof.
  unfold Part003.CORE_CUSTOM_VIEWS, Part003.core_custom_view_names.
  repeat apply keys_set. reflexivity.
Qed.

Lemma Part003_core_keys_In cfg (x : string) :
  In x (Part003.core_custom_view_names cfg) <->
  x = ALL_NAME cfg \/ x = UNTAGGED_NAME cfg \/ x = OTHERS_NAME cfg.
Proof.
  unfold Part003.core_custom_view_names.
  rewrite !keys_set_In. simpl. tauto.
Qed.

(** The entry under [OTHERS_NAME] is [Others]. *)
Lemma Part003_get_Others cfg app :
  JS.get (Part003.CORE_CUSTOM_VIEWS cfg app) (OTHERS_NAME cfg)
  = Some (Part003.Others cfg app).
Proof. apply get_set_same. Qed.

Lemma Part003_OthersLoop_false_iff cfg core user initiated tag_names :
  Part003.OthersLoop cfg core user initiated tag_names = false <->
  exists view_name,
    In view_name initiated /\ ~ In view_name core /\
    ((In view_name user /\ JS.call (CUSTOM_VIEWS cfg) view_name tag_names = true) \/
     regularViewMatchesTags view_name tag_names = true).
Proof.
  induction initiated as [|v initiated IH]; cbn [Part003.OthersLoop].
  - split; [discriminate | intros (w & [] & _)].
  - destruct (JS.includes core v) eqn:Ec.
    + apply includes_In in Ec. rewrite IH. split.
      * intros (w & Hw & H). exists w. split; [now right | assumption].
      * intros (w & [<-|Hw] & Hc & H); [contradiction|]. exists w. auto.
    + apply includes_false in Ec.
      destruct ((JS.includes user v && JS.call (CUSTOM_VIEWS cfg) v tag_names)
                || regularViewMatchesTags v tag_names) eqn:E.
      * split; [intros _ | reflexivity].
        exists v. split; [now left | split; [assumption|]].
        apply orb_true_iff in E. destruct E as [E|E]; [left | now right].
        apply andb_true_iff in E. destruct E as [E1 E2].
        apply includes_In in E1. auto.
      * apply orb_false_iff in E. destruct E as [E1 E2].
        rewrite IH. split.
        -- intros (w & Hw & H). exists w. split; [now right | assumption].
        -- intros (w & [<-|Hw] & Hc & H); [|exists w; auto].
           exfalso. destruct H as [[Hu Hp]|Hr]; [|congruence].
           apply includes_In in Hu. rewrite Hu, Hp in E1. discriminate.
Qed.

End OthersFacts.

(** C2 in [part_003].  [Others] is false on a tag list exactly when some
    initiated view whose name is not a key of the built-in view table claims
    the tags: a user view whose own predicate is true on them, or a view that
    matches them as a regular view.  Initiated views with a built-in name
    never count, and a user view whose predicate is false on the tags excludes
    nothing by its name. *)
Theorem Others_claimed_by_predicate cfg app tag_names :
  Part003.Others cfg app tag_names = false <->
  exists view_name,
    In view_name (getInitiatedViewNames cfg app None) /\
    ~ In view_name (JS.keys (Part003.CORE_CUSTOM_VIEWS cfg app)) /\
    ((exists pred, JS.get (CUSTOM_VIEWS cfg) view_name = Some pred /\
                   pred tag_names = true) \/
     regularViewMatchesTags view_name tag_names = true).
Proof.
  unfold Part003.Others. rewrite Part003_OthersLoop_false_iff, Part003_core_keys.
  split; intros (v & Hin & Hc & H); exists v; (split; [assumption|]);
    (split; [assumption|]); destruct H as [H|H]; auto; left.
  - destruct H as [Hu Hp]. destruct (get_keys _ _ Hu) as [pred Hg].
    exists pred. split; [assumption|]. now rewrite <- (call_get _ _ _ _ Hg).
  - destruct H as (pred & Hg & Hp). split; [eapply get_Some_keys; eauto|].
    now rewrite (call_get _ _ _ _ Hg).
Qed.

(** C2 in [core.js].  The initiated user view "Mine" has a predicate that is
    false on every tag list and does not match ["x"] as a regular view; still
    [Others] of [core.js] rejects ["x"], on the name alone.  [part_003]
    accepts it. *)
Theorem CoreJs_Others_excludes_by_name :
  getInitiatedViewNames others_config others_vault None = ["Mine"] /\
  JS.call (CUSTOM_VIEWS others_config) "Mine" ["x"] = false /\
  regularViewMatchesTags "Mine" ["x"] = false /\
  CoreJs.Others others_config others_vault ["x"] = false /\
  CoreJs.viewMatchesTags others_config others_vault "Others" (Some ["x"]) None = false /\
  Part003.Others others_config others_vault ["x"] = true /\
  Part003.viewMatchesTags others_config others_vault "Others" (Some ["x"]) None = true.
Proof. repeat split; reflexivity. Qed.

(** * The view enumerator *)

Section EnumeratorFacts.

Lemma startsWith_append (p s : string) : JS.startsWith (p ++ s) p = true.
Proof.
  unfold JS.startsWith. induction p as [|c p IH]; simpl.
  - now destruct s.
  - destruct (Ascii.ascii_dec c c); [assumption | contradiction].
Qed.

Lemma substring_skip (p s : string) :
  String.substring (String.length p) (String.length s) (p ++ s) = s.
Proof. induction p as [|c p IH]; simpl; [apply substring_full | assumption]. Qed.

(** [(p + s).slice(p.length)] is [s]. *)
Lemma slice_append (p s : string) :
  JS.slice (p ++ s) (Z.of_nat (String.length p)) None = s.
Proof.
  unfold JS.slice, JS.relativeIndex.
  destruct (Z.ltb_spec (Z.of_nat (String.length p)) 0) as [Hneg|_]; [lia|].
  rewrite Nat2Z.id, length_append.
  replace (Nat.min (String.length p) (String.length p + String.length s))
    with (String.length p) by lia.
  replace (String.length p + String.length s - String.length p)
    with (String.length s) by lia.
  apply substring_skip.
Qed.

Lemma fold_set_add_mono (f : string -> string) (tags set : list string) (x : string) :
  In x set -> In x (fold_left (fun set tag => JS.set_add set (f tag)) tags set).
Proof.
  revert set. induction tags as [|t tags IH]; intros set H; simpl; [assumption|].
  apply IH, set_add_In. now left.
Qed.

Lemma fold_set_add_In (f : string -> string) (tags set : list string) (t : string) :
  In t tags -> In (f t) (fold_left (fun set tag => JS.set_add set (f tag)) tags set).
Proof.
  revert set. induction tags as [|t' tags IH]; intros set H; simpl; [contradiction|].
  destruct H as [->|H].
  - apply fold_set_add_mono, set_add_In. now right.
  - now apply IH.
Qed.

Lemma subfolderLoop_mono subs tags full set (x : string) :
  In x set -> In x (subfolderLoop subs tags full set).
Proof.
  revert full set. induction subs as [|s subs IH]; intros full set H; simpl;
    [assumption|].
  apply IH. now apply (fold_set_add_mono (fun tag => _ ++ tag)%string).
Qed.

(** Every non-empty prefix of the subfolder segments gives one name per
    tag. *)
Lemma subfolderLoop_prefix pre post tags full set (tag : string) :
  pre <> [] -> In tag tags ->
  In (full ++ String.concat "/" pre ++ "/" ++ tag)%string
     (subfolderLoop (pre ++ post) tags full set).
Proof.
  revert full set. induction pre as [|s pre IH]; intros full set Hne Ht;
    [contradiction|].
  cbn [app subfolderLoop]. destruct pre as [|s' pre].
  - apply subfolderLoop_mono. cbn [String.concat].
    replace (full ++ s ++ "/" ++ tag)%string
      with ((full ++ s ++ "/") ++ tag)%string
      by (now rewrite !append_assoc).
    now apply (fold_set_add_In (fun tag => (full ++ s ++ "/") ++ tag)%string).
  - rewrite concat_cons by discriminate.
    replace (full ++ (s ++ "/" ++ String.concat "/" (s' :: pre)) ++ "/" ++ tag)%string
      with ((full ++ s ++ "/") ++ String.concat "/" (s' :: pre) ++ "/" ++ tag)%string
      by (now rewrite !append_assoc).
    apply IH; [discriminate | assumption].
Qed.

Lemma subfolderFilesLoop_mono n files set (x : string) :
  In x set -> In x (subfolderFilesLoop n files set).
Proof.
  revert set. induction files as [|f files IH]; intros set H; simpl; [assumption|].
  destruct (nonemptyTags f); apply IH; [now apply subfolderLoop_mono | assumption].
Qed.

Lemma subfolderFilesLoop_prefix n files set file ts t pre post :
  In file files ->
  nonemptyTags file = Some ts -> In t ts ->
  JS.split "/" (JS.slice (parent_path file) (Z.of_nat n) None) = pre ++ post ->
  pre <> [] ->
  In (String.concat "/" pre ++ "/" ++ JS.replace "/" " " t)%string
     (subfolderFilesLoop n files set).
Proof.
  intros Hin Hts Ht Hsplit Hne. revert set.
  induction files as [|f files IH]; intros set; [contradiction|].
  cbn [subfolderFilesLoop]. destruct Hin as [->|Hin].
  - rewrite Hts, Hsplit. apply subfolderFilesLoop_mono.
    apply (subfolderLoop_prefix pre post _ "" set); [assumption|].
    now apply in_map.
  - destruct (nonemptyTags f); now apply IH.
Qed.

Lemma pushNames_mono init array acc (x : string) :
  In x acc -> In x (pushNames init array acc).
Proof.
  revert acc. induction array as [|n array IH]; intros acc H; simpl; [assumption|].
  destruct (negb (JS.includes acc n) && negb (JS.includes init n)); apply IH;
    [apply in_or_app; now left | assumption].
Qed.

Lemma pushNames_complete init array acc (x : string) :
  In x array -> In x init \/ In x (pushNames init array acc).
Proof.
  revert acc. induction array as [|n array IH]; intros acc H; simpl; [contradiction|].
  destruct H as [->|H];
    [|destruct (negb (JS.includes acc n) && negb (JS.includes init n)); now apply IH].
  destruct (JS.includes acc x) eqn:Ea; cbn [negb andb].
  - right. apply pushNames_mono. now apply includes_In.
  - destruct (JS.includes init x) eqn:Ei; cbn [negb].
    + left. now apply includes_In.
    + right. apply pushNames_mono, in_or_app. right. now left.
Qed.

Lemma pushArrays_mono init arrays acc (x : string) :
  In x acc -> In x (pushArrays init arrays acc).
Proof.
  unfold pushArrays. revert acc.
  induction arrays as [|a arrays IH]; intros acc H; simpl; [assumption|].
  now apply IH, pushNames_mono.
Qed.

Lemma pushArrays_complete init arrays acc array (x : string) :
  In array arrays -> In x array -> In x init \/ In x (pushArrays init arrays acc).
Proof.
  unfold pushArrays. revert acc.
  induction arrays as [|a arrays IH]; intros acc Ha Hx; simpl; [contradiction|].
  destruct Ha as [->|Ha]; [|now apply IH].
  destruct (pushNames_complete init array acc x Hx) as [H|H]; [now left | right].
  now apply (pushArrays_mono init arrays).
Qed.

(** The names pushed are new and not initiated. *)
Lemma pushNames_inv init array acc :
  NoDup acc -> disjointNames acc init ->
  NoDup (pushNames init array acc) /\ disjointNames (pushNames init array acc) init.
Proof.
  revert acc. induction array as [|n array IH]; intros acc Hnd Hdj; simpl;
    [now split|].
  destruct (JS.includes acc n) eqn:Ea; cbn [negb andb]; [now apply IH|].
  destruct (JS.includes init n) eqn:Ei; cbn [negb]; [now apply IH|].
  apply includes_false in Ea, Ei. apply IH.
  - apply NoDup_app; [assumption | repeat constructor; tauto|].
    intros y Hy [<-|[]]. contradiction.
  - intros y Hy. apply in_app_or in Hy. destruct Hy as [Hy|[<-|[]]]; auto.
Qed.

Lemma pushArrays_inv init arrays acc :
  NoDup acc -> disjointNames acc init ->
  NoDup (pushArrays init arrays acc) /\ disjointNames (pushArrays init arrays acc) init.
Proof.
  unfold pushArrays. revert acc.
  induction arrays as [|a arrays IH]; intros acc Hnd Hdj; simpl; [now split|].
  destruct (pushNames_inv init a acc Hnd Hdj) as [H1 H2]. now apply IH.
Qed.

(** What the last lines of [getAllViews] guarantee, in both revisions. *)
Lemma enumeration_invariants (names : list ViewName) (arrays : list (list ViewName)) :
  let initiated_view_names := JS.sort names in
  let uninitiated_view_names := JS.sort (pushArrays initiated_view_names arrays []) in
  disjointNames initiated_view_names uninitiated_view_names /\
  NoDup uninitiated_view_names /\
  sortedNames initiated_view_names /\
  sortedNames uninitiated_view_names /\
  (NoDup names -> NoDup initiated_view_names).
Proof.
  intros ini unini.
  destruct (pushArrays_inv ini arrays []) as [Hnd Hdj];
    [constructor | intros x [] |].
  refine (conj _ (conj _ (conj _ (conj _ _)))).
  - intros x Hx Hu. unfold unini in Hu. rewrite sort_In in Hu. exact (Hdj x Hu Hx).
  - now apply sort_NoDup.
  - apply sort_sorted.
  - apply sort_sorted.
  - apply sort_NoDup.
Qed.

End EnumeratorFacts.

(** C8, as amended.  In the result of [getAllViews] no name is in both
    lists, the uninitiated list has no repetition, and both lists are sorted;
    the initiated list has no repetition when the names that
    [getInitiatedViewNames] derives from the selected paths have none. *)
Theorem getAllViews_invariants cfg app kwargs :
  let views := CoreJs.getAllViews cfg app kwargs in
  let views_path := trimSlashes (kwarg kwargs vk_views_path (VIEWS_PATH cfg)) in
  disjointNames (initiated views) (uninitiated views) /\
  NoDup (uninitiated views) /\
  sortedNames (initiated views) /\
  sortedNames (uninitiated views) /\
  (NoDup (getInitiatedViewNames cfg app (Some views_path)) -> NoDup (initiated views)).
Proof.
  unfold CoreJs.getAllViews. cbn [initiated uninitiated].
  apply enumeration_invariants.
Qed.

Lemma getAllViews_invariants_witness :
  NoDup (initiated (CoreJs.getAllViews others_config others_vault None)).
Proof.
  apply (getAllViews_invariants others_config others_vault None).
  simpl. repeat constructor. intros [].
Defined.

(** The same invariants in [part_003]. *)
Theorem getAllViews_invariants_part003 cfg app kwargs :
  let views := Part003.getAllViews cfg app kwargs in
  let views_path := trimSlashes (kwarg kwargs vk_views_path (VIEWS_PATH cfg)) in
  disjointNames (initiated views) (uninitiated views) /\
  NoDup (uninitiated views) /\
  sortedNames (initiated views) /\
  sortedNames (uninitiated views) /\
  (NoDup (getInitiatedViewNames cfg app (Some views_path)) -> NoDup (initiated views)).
Proof.
  unfold Part003.getAllViews. cbn [initiated uninitiated].
  apply enumeration_invariants.
Qed.

(** C8 as stated fails: two distinct files of "Views" whose paths differ in
    the last three code units only give the same name, and the initiated list
    repeats it. *)
Lemma getAllViews_initiated_repeats :
  NoDup (getCachedFiles twin_vault) /\
  initiated (CoreJs.getAllViews default_config twin_vault None) = ["a"; "a"] /\
  ~ NoDup (initiated (CoreJs.getAllViews default_config twin_vault None)).
Proof.
  split; [|split].
  - simpl. repeat constructor; simpl; [|tauto].
    intros [H|[]]. discriminate H.
  - reflexivity.
  - intros H. inversion H as [|? ? Hn _]. apply Hn. now left.
Qed.

(** C3 in [part_003].  With subfolder derivation on, a thing whose parent
    folder is [things_path/sub] gives, for each of its tags and each non-empty
    prefix [pre] of the segments of [sub], the candidate [pre] joined by "/",
    then "/", then the tag with its first "/" turned into " ". *)
Theorem Part003_subfolder_candidates cfg app views_path things_path
    file ts t sub pre post :
  In file (getFiles app) ->
  parent_path file = (things_path ++ "/" ++ sub)%string ->
  nonemptyTags file = Some ts ->
  In t ts ->
  JS.split "/" sub = pre ++ post ->
  pre <> [] ->
  In (String.concat "/" pre ++ "/" ++ JS.replace "/" " " t)%string
     (Part003.existingTagNames cfg app true views_path things_path).
Proof.
  intros Hin Hp Hts Ht Hsplit Hne.
  unfold Part003.existingTagNames. apply in_or_app. right.
  assert (Hp' : parent_path file = ((things_path ++ "/") ++ sub)%string)
    by (now rewrite append_assoc).
  apply (subfolderFilesLoop_prefix _ _ _ file ts t pre post); try assumption.
  - apply filter_In. split; [assumption|].
    rewrite Hp'. apply startsWith_append.
  - rewrite Hp'.
    replace (String.length things_path + 1) with (String.length (things_path ++ "/"))
      by (rewrite length_append; reflexivity).
    now rewrite slice_append.
Qed.

Lemma Part003_subfolder_candidates_witness :
  In "a/x" (Part003.existingTagNames default_config subfolder_vault true "Views" "Things") /\
  In "a/b/x" (Part003.existingTagNames default_config subfolder_vault true "Views" "Things").
Proof.
  split.
  - apply (Part003_subfolder_candidates default_config subfolder_vault "Views" "Things"
             {| path := "Things/a/b/n.md"; parent_path := "Things/a/b";
                frontmatter := Some {| tags := Some ["x"] |} |}
             ["x"] "x" "a/b" ["a"] ["b"]);
      try reflexivity; try discriminate; simpl; now left.
  - apply (Part003_subfolder_candidates default_config subfolder_vault "Views" "Things"
             {| path := "Things/a/b/n.md"; parent_path := "Things/a/b";
                frontmatter := Some {| tags := Some ["x"] |} |}
             ["x"] "x" "a/b" ["a"; "b"] []);
      try reflexivity; try discriminate; simpl; now left.
Defined.

(** Each such candidate ends in one of the two lists of [getAllViews]. *)
Theorem Part003_getAllViews_subfolder_views cfg app kwargs file ts t sub pre post :
  let things_path := trimSlashes (kwarg kwargs vk_things_path (THINGS_PATH cfg)) in
  let name := (String.concat "/" pre ++ "/" ++ JS.replace "/" " " t)%string in
  kwarg kwargs vk_calculate_subfolder_uninitiated
        (CALCULATE_SUBFOLDER_UNINITIATED cfg) = true ->
  In file (getFiles app) ->
  parent_path file = (things_path ++ "/" ++ sub)%string ->
  nonemptyTags file = Some ts ->
  In t ts ->
  JS.split "/" sub = pre ++ post ->
  pre <> [] ->
  In name (initiated (Part003.getAllViews cfg app kwargs)) \/
  In name (uninitiated (Part003.getAllViews cfg app kwargs)).
Proof.
  intros things_path name Hc Hin Hp Hts Ht Hsplit Hne.
  unfold Part003.getAllViews. cbn [initiated uninitiated].
  rewrite Hc, (sort_In name (pushArrays _ _ _)).
  eapply pushArrays_complete; [now left|].
  now apply (Part003_subfolder_candidates cfg app _ _ file ts t sub pre post).
Qed.

(** C3 in [core.js].  The subfolder filter tests the parent path against the
    views path, so the thing tagged "x" in "Things/a/b" gives no candidate
    "a/x" or "a/b/x"; [part_003], which tests against the things path, lists
    both. *)
Theorem CoreJs_getAllViews_misses_subfolder_views :
  CoreJs.existingTagNames default_config subfolder_vault true "Views" "Things" = ["x"] /\
  uninitiated (CoreJs.getAllViews default_config subfolder_vault None)
    = ["All"; "Archive"; "Others"; "Untagged"; "x"] /\
  initiated (CoreJs.getAllViews default_config subfolder_vault None) = [] /\
  Part003.existingTagNames default_config subfolder_vault true "Views" "Things"
    = ["x"; "a/x"; "a/b/x"] /\
  uninitiated (Part003.getAllViews default_config subfolder_vault None)
    = ["All"; "Archive"; "Others"; "Untagged"; "a/b/x"; "a/x"; "x"].
Proof. repeat split; reflexivity. Qed.

(** * Further properties of the name normalizer and the regular matcher *)

Section SegmentFacts.

Lemma str_includes_char (a : ascii) (s : string) :
  JS.str_includes s (String a "") = hasChar a s.
Proof.
  unfold JS.str_includes. induction s as [|c s IH]; [reflexivity|].
  cbn [String.index hasChar String.prefix].
  destruct (Ascii.ascii_dec a c) as [->|Hne].
  - rewrite Ascii.eqb_refl. now destruct s.
  - destruct (Ascii.eqb_spec c a) as [->|_]; [contradiction|].
    cbn [orb]. rewrite <- IH.
    now destruct (String.index 0 (String a "") s).
Qed.

Lemma split_no_sep (sep : ascii) (s : string) :
  hasChar sep s = false -> JS.split sep s = [s].
Proof.
  induction s as [|c s IH]; [reflexivity|].
  cbn [hasChar JS.split]. intros H. apply orb_false_iff in H. destruct H as [Hc Hs].
  rewrite Hc, (IH Hs). reflexivity.
Qed.

Lemma split_append_sep (sep : ascii) (p k : string) :
  JS.split sep (p ++ String sep k) = JS.split sep p ++ JS.split sep k.
Proof.
  induction p as [|c p IH].
  - cbn [append JS.split app]. now rewrite Ascii.eqb_refl.
  - cbn [append JS.split]. rewrite IH.
    destruct (Ascii.eqb c sep); [reflexivity|].
    pose proof (split_nonempty sep p) as Hn.
    destruct (JS.split sep p); [contradiction | reflexivity].
Qed.

Lemma split_segment_no_sep (sep : ascii) (s x : string) :
  In x (JS.split sep s) -> hasChar sep x = false.
Proof.
  revert x. induction s as [|c s IH]; intros x.
  - intros [<-|[]]. reflexivity.
  - cbn [JS.split]. destruct (Ascii.eqb c sep) eqn:Hc.
    + intros [<-|H]; [reflexivity | now apply IH].
    + pose proof (split_nonempty sep s) as Hn.
      destruct (JS.split sep s) as [|h t]; [contradiction|].
      intros [<-|H].
      * cbn [hasChar]. rewrite Hc. apply IH. now left.
      * apply IH. now right.
Qed.

Lemma append_empty_r (s : string) : (s ++ "")%string = s.
Proof. induction s as [|c s IH]; simpl; [reflexivity | now rewrite IH]. Qed.

Lemma lastIs_dropLast (a : ascii) (s : string) :
  lastIs a s = true -> s = (dropLast s ++ String a "")%string.
Proof.
  induction s as [|c s IH]; [discriminate|].
  destruct s as [|d s].
  - cbn [lastIs dropLast append]. intros H. apply Ascii.eqb_eq in H. now subst.
  - intros H. change (lastIs a (String c (String d s))) with (lastIs a (String d s)) in H.
    change (dropLast (String c (String d s))) with (String c (dropLast (String d s))).
    cbn [append]. now rewrite <- IH.
Qed.

Lemma lastIs_hasChar (a : ascii) (s : string) :
  lastIs a s = true -> hasChar a s = true.
Proof.
  induction s as [|c s IH]; [discriminate|].
  destruct s as [|d s].
  - cbn [lastIs hasChar]. intros ->. reflexivity.
  - intros H. change (lastIs a (String c (String d s))) with (lastIs a (String d s)) in H.
    cbn [hasChar] in *. rewrite (IH H). apply orb_true_r.
Qed.

Lemma lastIs_append (a : ascii) (p k : string) :
  k <> EmptyString -> lastIs a (p ++ k) = lastIs a k.
Proof.
  intros Hk. induction p as [|c p IH]; [reflexivity|].
  cbn [append]. destruct (p ++ k)%string eqn:E.
  - destruct p; [cbn in E; contradiction | discriminate].
  - exact IH.
Qed.

(** A name without "/" is not touched by [trimSlashes]. *)
Lemma trimSlashes_no_slash (s : string) :
  hasChar "/" s = false -> trimSlashes s = s.
Proof.
  intros H. apply trimSlashes_fixed_iff. rewrite startsWith_char, endsWith_char.
  split.
  - destruct s as [|c s]; [reflexivity|].
    cbn [hasChar] in H. now apply orb_false_iff in H.
  - destruct (lastIs "/" s) eqn:E; [|reflexivity].
    apply lastIs_hasChar in E. congruence.
Qed.

End SegmentFacts.

(** X1.  [trimSlashes] only ever removes slashes: the argument is the result
    with at most one "/" put back in front and at most one behind. *)
Theorem trimSlashes_decompose (s : string) :
  exists a b,
    (a = "" \/ a = "/") /\ (b = "" \/ b = "/") /\
    s = (a ++ trimSlashes s ++ b)%string.
Proof.
  rewrite trimSlashes_struct. cbv zeta. rewrite startsWith_char.
  destruct s as [|c s].
  - exists "", "". cbn. auto.
  - destruct (Ascii.eqb_spec c "/") as [->|Hc].
    + exists "/". cbn [dropFirst].
      destruct (lastIs "/" s) eqn:El.
      * exists "/". repeat split; auto. cbn [append]. f_equal.
        now apply lastIs_dropLast.
      * exists "". repeat split; auto. cbn [append]. now rewrite append_empty_r.
    + exists "".
      destruct (lastIs "/" (String c s)) eqn:El.
      * exists "/". repeat split; auto. cbn [append].
        now apply lastIs_dropLast.
      * exists "". repeat split; auto. cbn [append]. now rewrite append_empty_r.
Qed.

Section RegularFacts.

Lemma regularLoop_app (view_name : string) (T1 T2 : list TagName) :
  regularLoop view_name (T1 ++ T2)
  = regularLoop view_name T1 || regularLoop view_name T2.
Proof.
  induction T1 as [|t T1 IH]; [reflexivity|].
  cbn [app regularLoop].
  destruct (JS.str_includes view_name " ").
  - destruct (Nat.ltb _ _); [assumption|].
    destruct (segmentsMatch _ _); [reflexivity | assumption].
  - destruct (String.eqb _ _); [reflexivity | assumption].
Qed.

Lemma segmentsMatch_prefix (v t : list string) :
  segmentsMatch v t = true <-> exists rest, t = v ++ rest.
Proof.
  revert t. induction v as [|x v IH]; intros t; cbn [segmentsMatch].
  - split; [intros _; now exists t | reflexivity].
  - destruct t as [|y t].
    + split; [discriminate | intros [rest H]; discriminate H].
    + destruct (String.eqb_spec x y) as [->|Hne].
      * rewrite IH. split; intros [rest H]; exists rest.
        -- now rewrite H.
        -- now injection H.
      * split; [discriminate | intros [rest H]; injection H; congruence].
Qed.

Lemma prefix_length (v t rest : list string) :
  t = v ++ rest -> Nat.ltb (List.length t) (List.length v) = false.
Proof. intros ->. apply Nat.ltb_ge. rewrite length_app. lia. Qed.

Lemma regularLoop_iff (leaf : string) (T : list TagName) :
  regularLoop leaf T = true <-> exists t, In t T /\ tagFits leaf t.
Proof.
  unfold tagFits. induction T as [|t T IH]; cbn [regularLoop].
  - split; [discriminate | intros (t & [] & _)].
  - destruct (JS.str_includes leaf " ") eqn:Es.
    + destruct (segmentsMatch (JS.split " " leaf) (JS.split "/" t)) eqn:Em.
      * pose proof (proj1 (segmentsMatch_prefix _ _) Em) as [rest Hr].
        rewrite (prefix_length _ _ _ Hr).
        split; [intros _ | reflexivity].
        exists t. split; [now left | now exists rest].
      * assert (Hno : ~ exists rest, JS.split "/" t = JS.split " " leaf ++ rest).
        { intros H. apply segmentsMatch_prefix in H. congruence. }
        assert (Hgo : (if Nat.ltb (List.length (JS.split "/" t))
                                  (List.length (JS.split " " leaf))
                       then regularLoop leaf T else regularLoop leaf T)
                      = regularLoop leaf T) by (now destruct (Nat.ltb _ _)).
        rewrite Hgo, IH. split.
        -- intros (u & Hu & H). exists u. split; [now right | assumption].
        -- intros (u & [<-|Hu] & H); [contradiction | exists u; auto].
    + unfold firstSegment.
      destruct (String.eqb_spec (hd "" (JS.split "/" t)) leaf) as [He|Hne].
      * split; [intros _ | reflexivity]. exists t. split; [now left | assumption].
      * rewrite IH. split.
        -- intros (u & Hu & H). exists u. split; [now right | assumption].
        -- intros (u & [<-|Hu] & H); [contradiction | exists u; auto].
Qed.

End RegularFacts.

Lemma regularViewMatchesTags_fits (V : ViewName) (T : list TagName) :
  regularViewMatchesTags V T = true <->
  exists t, In t T /\ tagFits (leafName V) t.
Proof. apply regularLoop_iff. Qed.

(** X2.  The regular matcher is an "or" over the tags with prefix semantics:
    a view matches exactly when some tag fits its last path segment.  For a
    segment without space the tag's first level must be that segment; for a
    segment with spaces its pieces must be the first levels of the tag, in
    order. *)
Theorem regularViewMatchesTags_iff (V : ViewName) (T : list TagName) :
  regularViewMatchesTags V T = true <->
  exists t, In t T /\
    if JS.str_includes (leafName V) " "
    then exists rest, JS.split "/" t = JS.split " " (leafName V) ++ rest
    else firstSegment t = leafName V.
Proof. apply regularLoop_iff. Qed.

(** Tags are tried one by one: a list matches when one of its halves does. *)
Lemma regularViewMatchesTags_app (V : ViewName) (T1 T2 : list TagName) :
  regularViewMatchesTags V (T1 ++ T2)
  = regularViewMatchesTags V T1 || regularViewMatchesTags V T2.
Proof. apply regularLoop_app. Qed.

(** X3.  A view that matches a tag matches each of its subtags. *)
Theorem regularViewMatchesTags_subtag (V : ViewName) (t sub : TagName) :
  regularViewMatchesTags V [t] = true ->
  regularViewMatchesTags V [(t ++ "/" ++ sub)%string] = true.
Proof.
  rewrite !regularViewMatchesTags_fits. unfold tagFits.
  intros (u & [<-|[]] & H). exists (t ++ "/" ++ sub)%string.
  split; [now left|].
  cbn [append]. unfold firstSegment in *. rewrite split_append_sep.
  destruct (JS.str_includes (leafName V) " ").
  - destruct H as [rest ->]. exists (rest ++ JS.split "/" sub).
    now rewrite app_assoc.
  - pose proof (split_nonempty "/" t) as Hn.
    destruct (JS.split "/" t); [contradiction | exact H].
Qed.

Lemma regularViewMatchesTags_subtag_witness :
  regularViewMatchesTags "Views/proj web" ["proj/web/ui"] = true.
Proof.
  apply (regularViewMatchesTags_subtag "Views/proj web" "proj/web" "ui").
  reflexivity.
Defined.

Lemma leafName_no_slash (name : string) :
  hasChar "/" name = false -> leafName name = name.
Proof.
  intros H. unfold leafName. now rewrite trimSlashes_no_slash, split_no_sep.
Qed.

Lemma leafName_folder (folder name : string) :
  hasChar "/" name = false -> name <> "" ->
  leafName (folder ++ "/" ++ name)%string = name.
Proof.
  intros Hs Hn. unfold leafName.
  assert (Hlast : forall x, last (JS.split "/" (x ++ "/" ++ name)%string) "" = name).
  { intros x. cbn [append]. rewrite split_append_sep, (split_no_sep _ _ Hs).
    apply last_last. }
  assert (Hend : forall x, lastIs "/" (x ++ name)%string = false).
  { intros x. rewrite lastIs_append by assumption.
    destruct (lastIs "/" name) eqn:E; [|reflexivity].
    apply lastIs_hasChar in E. congruence. }
  rewrite trimSlashes_struct. cbv zeta. rewrite startsWith_char.
  destruct folder as [|c folder].
  - cbn [append dropFirst]. rewrite Ascii.eqb_refl.
    pose proof (Hend "") as He. cbn [append] in He. rewrite He.
    now rewrite split_no_sep.
  - cbn [append dropFirst].
    destruct (Ascii.eqb c "/").
    + replace (folder ++ String "/" name)%string
        with ((folder ++ "/") ++ name)%string by (now rewrite append_assoc).
      rewrite Hend. rewrite append_assoc. apply Hlast.
    + replace (String c (folder ++ String "/" name))
        with ((String c folder ++ "/") ++ name)%string
        by (now rewrite append_assoc).
      rewrite Hend. rewrite append_assoc. apply (Hlast (String c folder)).
Qed.

(** X4.  Folders in front of a view name do not count: a view in any
    subfolder matches what the view of the same name at the root matches. *)
Theorem regularViewMatchesTags_ignores_folder (folder name : string)
    (T : list TagName) :
  hasChar "/" name = false -> name <> "" ->
  regularViewMatchesTags (folder ++ "/" ++ name)%string T
  = regularViewMatchesTags name T.
Proof.
  intros Hs Hn. unfold regularViewMatchesTags.
  change (last (JS.split "/" (trimSlashes (folder ++ "/" ++ name)%string)) "")
    with (leafName (folder ++ "/" ++ name)%string).
  change (last (JS.split "/" (trimSlashes name)) "") with (leafName name).
  now rewrite leafName_folder, leafName_no_slash.
Qed.

Lemma regularViewMatchesTags_ignores_folder_witness :
  regularViewMatchesTags ("/games/rpg" ++ "/" ++ "proj web")%string ["proj/web"]
  = regularViewMatchesTags "proj web" ["proj/web"].
Proof.
  apply (regularViewMatchesTags_ignores_folder "/games/rpg" "proj web" ["proj/web"]).
  - reflexivity.
  - discriminate.
Defined.

Lemma replace_first_split (t : TagName) :
  hasChar " " t = false ->
  hasChar "/" (JS.replace "/" " " t) = false ->
  (hasChar "/" t = false /\ JS.replace "/" " " t = t) \/
  (hasChar " " (JS.replace "/" " " t) = true /\
   JS.split " " (JS.replace "/" " " t) = JS.split "/" t).
Proof.
  induction t as [|c t IH]; [now left|].
  cbn [JS.replace hasChar]. intros Hsp Hsl.
  apply orb_false_iff in Hsp. destruct Hsp as [Hc Hsp].
  destruct (Ascii.eqb c "/") eqn:Ec.
  - right. cbn [hasChar] in *. apply orb_false_iff in Hsl. destruct Hsl as [_ Hsl].
    split; [reflexivity|].
    cbn [JS.split]. rewrite Ec, Ascii.eqb_refl.
    now rewrite (split_no_sep _ _ Hsp), (split_no_sep _ _ Hsl).
  - cbn [hasChar] in Hsl. apply orb_false_iff in Hsl. destruct Hsl as [_ Hsl].
    destruct (IH Hsp Hsl) as [[H1 H2]|[H1 H2]].
    + left. rewrite H1, H2. now split.
    + right. cbn [hasChar JS.split]. rewrite H1, Hc, Ec, H2.
      split; [apply orb_true_r | reflexivity].
Qed.

(** X5.  The view name that [getAllViews] derives from a tag (its first "/"
    turned into " ") matches that tag, as long as the tag has no space and the
    derived name has no "/" left, that is, the tag has at most two levels. *)
Theorem regularViewMatchesTags_derived_view (t : TagName) (T : list TagName) :
  hasChar " " t = false ->
  hasChar "/" (JS.replace "/" " " t) = false ->
  In t T ->
  regularViewMatchesTags (JS.replace "/" " " t) T = true.
Proof.
  intros Hsp Hsl Hin. apply regularViewMatchesTags_fits.
  exists t. split; [assumption|]. unfold tagFits.
  rewrite (leafName_no_slash _ Hsl), str_includes_char.
  destruct (replace_first_split t Hsp Hsl) as [[H1 H2]|[H1 H2]].
  - rewrite H2, Hsp. unfold firstSegment. now rewrite split_no_sep.
  - rewrite H1, H2. exists []. now rewrite app_nil_r.
Qed.

Lemma regularViewMatchesTags_derived_view_witness :
  regularViewMatchesTags (JS.replace "/" " " "proj/web") ["x"; "proj/web"] = true.
Proof.
  apply (regularViewMatchesTags_derived_view "proj/web" ["x"; "proj/web"]);
    [reflexivity | reflexivity | simpl; auto].
Defined.

(** * Further properties of the view resolver *)

Section TagRuleFacts.

Variables (custom_tags CORE_CUSTOM_TAGS : CustomTags).

Lemma tagRulesPass_cons (view_name : ViewName) (t : TagName) (T : list TagName) :
  tagRulesPass custom_tags CORE_CUSTOM_TAGS view_name (t :: T)
  = tagRulesPass custom_tags CORE_CUSTOM_TAGS view_name [t]
    && tagRulesPass custom_tags CORE_CUSTOM_TAGS view_name T.
Proof.
  cbn [tagRulesPass].
  destruct (JS.includes (JS.keys custom_tags) t).
  - now destruct (JS.call custom_tags t view_name).
  - destruct (JS.includes (JS.keys CORE_CUSTOM_TAGS) t); [|reflexivity].
    now destruct (JS.call CORE_CUSTOM_TAGS t view_name).
Qed.

(** One rejecting tag anywhere in the list stops the loop with [false]. *)
Lemma tagRulesPass_rejects_In (view_name : ViewName) (t : TagName)
    (T : list TagName) rule :
  In t T ->
  resolveTagRule custom_tags CORE_CUSTOM_TAGS t = Some rule ->
  rule view_name = false ->
  tagRulesPass custom_tags CORE_CUSTOM_TAGS view_name T = false.
Proof.
  intros Hin Hr Hv. induction T as [|u T IH]; [contradiction|].
  rewrite tagRulesPass_cons. destruct Hin as [->|Hin].
  - now rewrite (tagRulesPass_rejects _ _ _ _ _ Hr Hv).
  - rewrite (IH Hin). apply andb_false_r.
Qed.

End TagRuleFacts.

(** X6.  The tag rules are an "and" over the tags: when the rule that
    resolves for any one tag of the list is false on the trimmed view name,
    [viewMatchesTags] is false, whatever the other tags, the custom views and
    the regular matcher say. *)
Theorem viewMatchesTags_any_tag_rule_false cfg app V T kwargs t rule :
  In t T ->
  resolveTagRule (kwarg kwargs mk_custom_tags (CUSTOM_TAGS cfg))
                 CoreJs.CORE_CUSTOM_TAGS t = Some rule ->
  rule (trimSlashes V) = false ->
  CoreJs.viewMatchesTags cfg app V (Some T) kwargs = false.
Proof.
  intros Hin Hr Hv. unfold CoreJs.viewMatchesTags, viewMatchesTagsWith.
  now rewrite (tagRulesPass_rejects_In _ _ _ _ _ _ Hin Hr Hv).
Qed.

Lemma viewMatchesTags_any_tag_rule_false_witness :
  CoreJs.viewMatchesTags default_config empty_vault "proj web"
    (Some ["proj/web"; "Archive"]) None = false.
Proof.
  apply (viewMatchesTags_any_tag_rule_false default_config empty_vault "proj web"
           ["proj/web"; "Archive"] None "Archive"
           (fun view_name => String.eqb view_name "Archive"));
    [simpl; auto | reflexivity | reflexivity].
Defined.

(** X7.  Unless the user table redefines the tag "Archive", a thing that
    carries it is shown by no view other than "Archive": not by "All", not by
    a user view, not by a regular view. *)
Theorem viewMatchesTags_archived_hidden cfg app V T kwargs :
  JS.get (kwarg kwargs mk_custom_tags (CUSTOM_TAGS cfg)) "Archive" = None ->
  In "Archive" T ->
  trimSlashes V <> "Archive" ->
  CoreJs.viewMatchesTags cfg app V (Some T) kwargs = false.
Proof.
  intros Hu Hin Hv. unfold CoreJs.viewMatchesTags, viewMatchesTagsWith.
  rewrite (tagRulesPass_rejects_In _ _ _ "Archive" T
             (fun view_name => String.eqb view_name "Archive") Hin);
    [reflexivity | | now apply String.eqb_neq].
  unfold resolveTagRule. now rewrite Hu.
Qed.

Lemma viewMatchesTags_archived_hidden_witness :
  CoreJs.viewMatchesTags shadowing_config empty_vault "/games/All/"
    (Some ["x"; "Archive"]) None = false.
Proof.
  apply (viewMatchesTags_archived_hidden shadowing_config empty_vault "/games/All/"
           ["x"; "Archive"] None);
    [reflexivity | simpl; auto | discriminate].
Defined.

(** X8.  With the shipped configuration the view "Untagged" shows exactly
    the things without tags, in both revisions. *)
Theorem viewMatchesTags_Untagged app (T : list TagName) :
  CoreJs.viewMatchesTags default_config app "Untagged" (Some T) None
    = Nat.eqb (List.length T) 0 /\
  Part003.viewMatchesTags default_config app "Untagged" (Some T) None
    = Nat.eqb (List.length T) 0.
Proof.
  destruct T as [|t T]; [split; reflexivity|].
  unfold CoreJs.viewMatchesTags, Part003.viewMatchesTags, viewMatchesTagsWith.
  split.
  - destruct (tagRulesPass _ _ _ _); reflexivity.
  - destruct (tagRulesPass _ _ _ _); reflexivity.
Qed.

Lemma tagRulesPass_Archive_view core_tags (T : list TagName) :
  core_tags = [("Archive", fun view_name : ViewName => String.eqb view_name "Archive")] ->
  tagRulesPass [] core_tags "Archive" T = true.
Proof.
  intros ->. induction T as [|t T IH]; [reflexivity|].
  rewrite tagRulesPass_cons, IH, andb_true_r.
  cbn. destruct (String.eqb_spec t "Archive") as [->|_]; reflexivity.
Qed.

(** X9.  With the shipped configuration the view "Archive" is a regular
    view that the tag "Archive" does not block: it shows every thing that
    carries the tag "Archive" or one of its subtags. *)
Theorem viewMatchesTags_Archive_view app (T : list TagName) :
  CoreJs.viewMatchesTags default_config app "Archive" (Some T) None
    = regularViewMatchesTags "Archive" T /\
  (In "Archive" T ->
   CoreJs.viewMatchesTags default_config app "Archive" (Some T) None = true).
Proof.
  assert (H : CoreJs.viewMatchesTags default_config app "Archive" (Some T) None
              = regularViewMatchesTags "Archive" T).
  { unfold CoreJs.viewMatchesTags, viewMatchesTagsWith.
    cbn [kwarg default_config CUSTOM_TAGS CUSTOM_VIEWS].
    change (trimSlashes "Archive") with "Archive".
    now rewrite tagRulesPass_Archive_view. }
  split; [assumption|].
  intros Hin. rewrite H. apply regularViewMatchesTags_fits.
  exists "Archive". split; [assumption | reflexivity].
Qed.

Lemma viewMatchesTags_Archive_view_witness :
  CoreJs.viewMatchesTags default_config empty_vault "Archive"
    (Some ["proj/web"; "Archive"]) None = true.
Proof.
  apply (proj2 (viewMatchesTags_Archive_view empty_vault ["proj/web"; "Archive"])).
  simpl. auto.
Defined.

Section VariantFacts.


Lemma suffixes_In (l sfx : list string) :
  In sfx (suffixes l) -> exists x rest, sfx = x :: rest /\ In x l.
Proof.
  induction l as [|y l IH]; [intros []|].
  cbn [suffixes]. intros [<-|H].
  - exists y, l. split; [reflexivity | now left].
  - destruct (IH H) as (x & rest & -> & Hx). exists x, rest. split; [reflexivity | now right].
Qed.

Lemma concat_starts (sep x : string) (rest : list string) :
  exists tail, String.concat sep (x :: rest) = (x ++ tail)%string.
Proof.
  destruct rest as [|y rest].
  - exists "". cbn [String.concat]. now rewrite append_empty_r.
  - exists (sep ++ String.concat sep (y :: rest))%string. reflexivity.
Qed.

End VariantFacts.


(** X11.  A custom view registered under "/k" is looked up for the view [k]
    alone: for a view name without empty path segment, the only name with a
    leading "/" that [viewMatchesTags] tries is "/" followed by the whole
    name. *)
Theorem matching_view_names_anchored (view_name k : ViewName) :
  (forall seg, In seg (JS.split "/" view_name) -> seg <> "") ->
  k <> view_name ->
  ~ In ("/" ++ k)%string (matching_view_names view_name).
Proof.
  intros Hseg Hk Hin. rewrite matching_view_names_suffixes in Hin.
  apply in_app_or in Hin. destruct Hin as [Hin|[Heq|[]]].
  - apply in_map_iff in Hin. destruct Hin as (sfx & Hc & Hs).
    destruct (suffixes_In _ _ Hs) as (x & rest & -> & Hx).
    destruct (concat_starts "/" x rest) as [tail Ht]. rewrite Ht in Hc.
    pose proof (split_segment_no_sep _ _ _ Hx) as Hno.
    pose proof (Hseg x Hx) as Hne.
    destruct x as [|c x]; [contradiction|].
    cbn [append] in Hc. injection Hc as Hc _. subst c.
    cbn [hasChar] in Hno. discriminate Hno.
  - cbn [append] in Heq. injection Heq as Heq. congruence.
Qed.

Lemma matching_view_names_anchored_witness :
  ~ In "/web" (matching_view_names "proj/web").
Proof.
  apply (matching_view_names_anchored "proj/web" "web").
  - intros seg [<-|[<-|[]]]; discriminate.
  - discriminate.
Defined.

Section OthersRevisions.

Lemma Others_loops_agree cfg core user initiated tag_names :
  CoreJs.OthersLoop core user initiated tag_names = true ->
  Part003.OthersLoop cfg core user initiated tag_names = true.
Proof.
  induction initiated as [|v initiated IH];
    cbn [CoreJs.OthersLoop Part003.OthersLoop]; [reflexivity|].
  destruct (JS.includes core v); [assumption|].
  destruct (JS.includes user v); cbn [orb andb]; [discriminate|].
  destruct (regularViewMatchesTags v tag_names); [discriminate | assumption].
Qed.

End OthersRevisions.

(** X12.  With the default names of the built-in views, whatever [Others]
    of [core.js] accepts, [Others] of [part_003] accepts too: calling the
    user predicate only ever lets more things into "Others". *)
Theorem Others_revisions cfg app (tag_names : list TagName) :
  Part003.core_custom_view_names cfg = CoreJs.core_custom_view_names ->
  CoreJs.Others cfg app tag_names = true ->
  Part003.Others cfg app tag_names = true.
Proof.
  intros Hn. unfold CoreJs.Others, Part003.Others. rewrite Hn.
  apply Others_loops_agree.
Qed.

Lemma Others_revisions_witness :
  Part003.Others default_config others_vault ["x"] = true.
Proof.
  apply (Others_revisions default_config others_vault ["x"]); reflexivity.
Defined.

(** * Further properties of the view enumerator *)

Section PathFacts.

Lemma substring_prefix_of_append (s t : string) :
  String.substring 0 (String.length s) (s ++ t) = s.
Proof.
  induction s as [|c s IH]; simpl.
  - now destruct t.
  - now rewrite IH.
Qed.

Lemma substring_middle (p s t : string) :
  String.substring (String.length p) (String.length s) (p ++ s ++ t) = s.
Proof.
  induction p as [|c p IH]; simpl; [apply substring_prefix_of_append | assumption].
Qed.

(** [(p + name + ext).slice(p.length, -3)] is [name] when [ext] has three
    code units. *)
Lemma slice_strip_extension (p name ext : string) :
  String.length ext = 3 ->
  JS.slice (p ++ name ++ ext) (Z.of_nat (String.length p)) (Some (-3)%Z) = name.
Proof.
  intros He. unfold JS.slice, JS.relativeIndex.
  destruct (Z.ltb_spec (Z.of_nat (String.length p)) 0) as [Hneg|_]; [lia|].
  replace (-3 <? 0)%Z with true by reflexivity.
  rewrite Nat2Z.id, !length_append, He.
  replace (Nat.min (String.length p) (String.length p + (String.length name + 3)))
    with (String.length p) by lia.
  replace (Z.to_nat (Z.max
             (Z.of_nat (String.length p + (String.length name + 3)) + -3) 0)
           - String.length p)
    with (String.length name) by lia.
  apply substring_middle.
Qed.

End PathFacts.

(** X13.  The file of a view gives its name back: a cached file
    [views_path/name.md] puts [name] in the list of initiated views, for any
    name, subfolders included. *)
Theorem getInitiatedViewNames_view_file cfg app (views_path : string)
    (name : ViewName) :
  In (trimSlashes views_path ++ "/" ++ name ++ ".md")%string (getCachedFiles app) ->
  In name (getInitiatedViewNames cfg app (Some views_path)).
Proof.
  intros Hin. unfold getInitiatedViewNames.
  apply in_map_iff.
  exists (trimSlashes views_path ++ "/" ++ name ++ ".md")%string. split.
  - replace (trimSlashes views_path ++ "/" ++ name ++ ".md")%string
      with ((trimSlashes views_path ++ "/") ++ name ++ ".md")%string
      by (now rewrite append_assoc).
    replace (String.length (trimSlashes views_path) + 1)
      with (String.length (trimSlashes views_path ++ "/"))
      by (rewrite length_append; reflexivity).
    now apply slice_strip_extension.
  - apply filter_In. split; [assumption | apply startsWith_append].
Qed.

Lemma getInitiatedViewNames_view_file_witness :
  In "games/proj web"
     (getInitiatedViewNames default_config
        {| getFiles := []; getCachedFiles := ["Home.md"; "Views/games/proj web.md"] |}
        (Some "/Views/")).
Proof.
  apply (getInitiatedViewNames_view_file default_config
           {| getFiles := []; getCachedFiles := ["Home.md"; "Views/games/proj web.md"] |}
           "/Views/" "games/proj web").
  simpl. auto.
Defined.

Section ExistingTagFacts.

Lemma set_add_NoDup (set : list string) (x : string) :
  NoDup set -> NoDup (JS.set_add set x).
Proof.
  intros H. unfold JS.set_add. destruct (JS.includes set x) eqn:E; [assumption|].
  apply includes_false in E.
  apply NoDup_app; [assumption | repeat constructor; tauto|].
  intros y Hy [<-|[]]. contradiction.
Qed.

Lemma existingTagsLoop_NoDup files acc :
  NoDup acc -> NoDup (existingTagsLoop files acc).
Proof.
  revert acc. induction files as [|f files IH]; intros acc H; simpl; [assumption|].
  destruct (nonemptyTags f) as [[|t ts]|]; apply IH;
    [assumption | now apply set_add_NoDup | assumption].
Qed.

Lemma existingTagsLoop_In files acc (t : TagName) :
  In t (existingTagsLoop files acc) <->
  In t acc \/
  exists file rest, In file files /\ nonemptyTags file = Some (t :: rest).
Proof.
  revert acc. induction files as [|f files IH]; intros acc; simpl.
  - split; [auto | intros [H|(file & rest & [] & _)]; assumption].
  - destruct (nonemptyTags f) as [[|u ts]|] eqn:E; rewrite IH.
    + split.
      * intros [H|(file & rest & Hf & Ht)]; [now left|].
        right. exists file, rest. auto.
      * intros [H|(file & rest & [<-|Hf] & Ht)]; [now left | congruence |].
        right. exists file, rest. auto.
    + rewrite set_add_In. split.
      * intros [[H| ->]|(file & rest & Hf & Ht)]; [now left | |].
        -- right. exists f, ts. auto.
        -- right. exists file, rest. auto.
      * intros [H|(file & rest & [<-|Hf] & Ht)]; [now left; left | |].
        -- left. right. congruence.
        -- right. exists file, rest. auto.
    + split.
      * intros [H|(file & rest & Hf & Ht)]; [now left|].
        right. exists file, rest. auto.
      * intros [H|(file & rest & [<-|Hf] & Ht)]; [now left | congruence |].
        right. exists file, rest. auto.
Qed.

End ExistingTagFacts.

(** X14.  [getExistingTagNames] returns, without repetition, exactly the
    first tag of each file whose path begins with the things path and whose
    frontmatter has tags; the later tags of a file are not collected by this
    function. *)
Theorem getExistingTagNames_first_tags cfg app (things_path : string) :
  NoDup (getExistingTagNames cfg app (Some things_path)) /\
  forall t,
    In t (getExistingTagNames cfg app (Some things_path)) <->
    exists file rest,
      In file (getFiles app) /\
      JS.startsWith (path file) (trimSlashes things_path) = true /\
      nonemptyTags file = Some (t :: rest).
Proof.
  unfold getExistingTagNames. split.
  - apply existingTagsLoop_NoDup. constructor.
  - intros t. rewrite existingTagsLoop_In. split.
    + intros [[]|(file & rest & Hf & Ht)].
      apply filter_In in Hf. destruct Hf as [Hf Hp].
      exists file, rest. auto.
    + intros (file & rest & Hf & Hp & Ht). right.
      exists file, rest. split; [|assumption].
      apply filter_In. auto.
Qed.

Section CandidateFacts.

Lemma pushNames_sound init array acc (x : string) :
  In x (pushNames init array acc) -> In x acc \/ In x array.
Proof.
  revert acc. induction array as [|n array IH]; intros acc; simpl; [auto|].
  destruct (negb (JS.includes acc n) && negb (JS.includes init n)); intros H;
    apply IH in H.
  - destruct H as [H|H]; [|auto].
    apply in_app_or in H. destruct H as [H|[<-|[]]]; auto.
  - destruct H; auto.
Qed.

Lemma pushArrays_sound init arrays acc (x : string) :
  In x (pushArrays init arrays acc) ->
  In x acc \/ exists array, In array arrays /\ In x array.
Proof.
  unfold pushArrays. revert acc.
  induction arrays as [|a arrays IH]; intros acc; simpl; [auto|].
  intros H. apply IH in H. destruct H as [H|(array & Ha & Hx)].
  - apply pushNames_sound in H. destruct H as [H|H]; [now left|].
    right. exists a. auto.
  - right. exists array. auto.
Qed.

(** The uninitiated names are the candidates that are not initiated. *)
Lemma uninitiated_iff (names : list ViewName) (arrays : list (list ViewName))
    (x : ViewName) :
  In x (JS.sort (pushArrays (JS.sort names) arrays [])) <->
  ~ In x (JS.sort names) /\ exists array, In array arrays /\ In x array.
Proof.
  rewrite sort_In. split.
  - intros H. split.
    + destruct (pushArrays_inv (JS.sort names) arrays []) as [_ Hdj];
        [constructor | intros y [] |].
      exact (Hdj x H).
    + apply pushArrays_sound in H. destruct H as [[]|H]. exact H.
  - intros (Hn & array & Ha & Hx).
    destruct (pushArrays_complete (JS.sort names) arrays [] array x Ha Hx);
      [contradiction | assumption].
Qed.

Lemma In_five {A} (x : A) (a b c d e : list A) :
  (exists array, In array [a; b; c; d; e] /\ In x array) <->
  In x a \/ In x b \/ In x c \/ In x d \/ In x e.
Proof.
  split.
  - intros (array & Ha & Hx). simpl in Ha.
    repeat (destruct Ha as [<-|Ha]; [tauto|]). contradiction.
  - intros [H|[H|[H|[H|H]]]].
    + exists a. split; [simpl; auto | assumption].
    + exists b. split; [simpl; auto | assumption].
    + exists c. split; [simpl; auto | assumption].
    + exists d. split; [simpl; auto | assumption].
    + exists e. split; [simpl; auto 6 | assumption].
Qed.

Lemma fold_set_add_sound (f : string -> string) (tags set : list string) (x : string) :
  In x (fold_left (fun set tag => JS.set_add set (f tag)) tags set) ->
  In x set \/ exists t, In t tags /\ x = f t.
Proof.
  revert set. induction tags as [|t tags IH]; intros set; simpl; [auto|].
  intros H. apply IH in H. destruct H as [H|(u & Hu & ->)].
  - apply set_add_In in H. destruct H as [H| ->]; [now left|].
    right. exists t. auto.
  - right. exists u. auto.
Qed.

Lemma subfolderLoop_sound subs tags full set (x : string) :
  In x (subfolderLoop subs tags full set) ->
  In x set \/
  exists pre post tag,
    subs = pre ++ post /\ pre <> [] /\ In tag tags /\
    x = (full ++ String.concat "/" pre ++ "/" ++ tag)%string.
Proof.
  revert full set. induction subs as [|s subs IH]; intros full set; simpl; [auto|].
  intros H. apply IH in H. destruct H as [H|(pre & post & tag & -> & Hne & Ht & ->)].
  - apply (fold_set_add_sound (fun tag => (full ++ s ++ "/") ++ tag)%string) in H.
    destruct H as [H|(t & Ht & ->)]; [now left|].
    right. exists [s], subs, t. repeat split; try assumption; try discriminate.
    cbn [String.concat]. now rewrite !append_assoc.
  - right. exists (s :: pre), post, tag.
    repeat split; try assumption; try discriminate.
    rewrite concat_cons by assumption. now rewrite !append_assoc.
Qed.

Lemma subfolderFilesLoop_sound n files set (x : string) :
  In x (subfolderFilesLoop n files set) ->
  In x set \/
  exists file ts t pre post,
    In file files /\ nonemptyTags file = Some ts /\ In t ts /\
    JS.split "/" (JS.slice (parent_path file) (Z.of_nat n) None) = pre ++ post /\
    pre <> [] /\
    x = (String.concat "/" pre ++ "/" ++ JS.replace "/" " " t)%string.
Proof.
  revert set. induction files as [|f files IH]; intros set; simpl; [auto|].
  destruct (nonemptyTags f) as [ts|] eqn:E; intros H; apply IH in H.
  - destruct H as [H|(file & ts' & t & pre & post & Hf & H')].
    + apply subfolderLoop_sound in H.
      destruct H as [H|(pre & post & tag & Hs & Hne & Ht & ->)]; [now left|].
      apply in_map_iff in Ht. destruct Ht as (t & <- & Ht).
      right. exists f, ts, t, pre, post. cbn [append]. auto 10.
    + right. exists file, ts', t, pre, post. tauto.
  - destruct H as [H|(file & ts' & t & pre & post & Hf & H')]; [now left|].
    right. exists file, ts', t, pre, post. tauto.
Qed.

End CandidateFacts.

(** X15.  In both revisions the uninitiated list of [getAllViews] holds
    exactly the candidate names that are not initiated, a candidate being a
    name taken from the tags of the things, a key of the user or built-in
    view table, or a key of the user or built-in tag table with its first "/"
    turned into " ". *)
Theorem getAllViews_uninitiated_iff cfg app kwargs (name : ViewName) :
  let custom_views := kwarg kwargs vk_custom_views (CUSTOM_VIEWS cfg) in
  let custom_tags := kwarg kwargs vk_custom_tags (CUSTOM_TAGS cfg) in
  let views_path := trimSlashes (kwarg kwargs vk_views_path (VIEWS_PATH cfg)) in
  let things_path := trimSlashes (kwarg kwargs vk_things_path (THINGS_PATH cfg)) in
  (In name (uninitiated (CoreJs.getAllViews cfg app kwargs)) <->
   ~ In name (initiated (CoreJs.getAllViews cfg app kwargs)) /\
   (In name (CoreJs.existingTagNames cfg app
               (kwarg kwargs vk_calculate_subfolder_uninitiated true)
               views_path things_path) \/
    In name (JS.keys custom_views) \/
    In name (JS.keys (CoreJs.CORE_CUSTOM_VIEWS cfg app)) \/
    In name (map (JS.replace "/" " ") (JS.keys custom_tags)) \/
    In name (map (JS.replace "/" " ") (JS.keys CoreJs.CORE_CUSTOM_TAGS)))) /\
  (In name (uninitiated (Part003.getAllViews cfg app kwargs)) <->
   ~ In name (initiated (Part003.getAllViews cfg app kwargs)) /\
   (In name (Part003.existingTagNames cfg app
               (kwarg kwargs vk_calculate_subfolder_uninitiated
                      (CALCULATE_SUBFOLDER_UNINITIATED cfg))
               views_path things_path) \/
    In name (JS.keys custom_views) \/
    In name (JS.keys (Part003.CORE_CUSTOM_VIEWS cfg app)) \/
    In name (map (JS.replace "/" " ") (JS.keys custom_tags)) \/
    In name (map (JS.replace "/" " ") (JS.keys (Part003.CORE_CUSTOM_TAGS cfg))))).
Proof.
  intros custom_views custom_tags views_path things_path.
  unfold CoreJs.getAllViews, Part003.getAllViews. cbn [initiated uninitiated].
  split; rewrite uninitiated_iff, In_five; reflexivity.
Qed.

(** X16.  In [part_003] with subfolder derivation on, the candidates taken
    from tags are the converted names of [getExistingTagNames] and, for each
    thing whose parent folder begins with [things_path/], each of its tags
    and each non-empty prefix of the folder segments below the things path,
    the prefix joined by "/", then "/", then the converted tag; nothing
    else. *)
Theorem Part003_existingTagNames_iff cfg app (views_path things_path : string)
    (name : ViewName) :
  In name (Part003.existingTagNames cfg app true views_path things_path) <->
  In name (map (JS.replace "/" " ") (getExistingTagNames cfg app (Some things_path))) \/
  exists file ts t pre post,
    In file (getFiles app) /\
    JS.startsWith (parent_path file) (things_path ++ "/") = true /\
    nonemptyTags file = Some ts /\
    In t ts /\
    JS.split "/" (JS.slice (parent_path file)
                    (Z.of_nat (String.length things_path + 1)) None) = pre ++ post /\
    pre <> [] /\
    name = (String.concat "/" pre ++ "/" ++ JS.replace "/" " " t)%string.
Proof.
  unfold Part003.existingTagNames. rewrite in_app_iff. split.
  - intros [H|H]; [now left | right].
    apply subfolderFilesLoop_sound in H.
    destruct H as [[]|(file & ts & t & pre & post & Hf & Hts & Ht & Hs & Hne & ->)].
    apply filter_In in Hf. destruct Hf as [Hf Hp].
    exists file, ts, t, pre, post. auto 10.
  - intros [H|(file & ts & t & pre & post & Hf & Hp & Hts & Ht & Hs & Hne & ->)];
      [now left | right].
    apply (subfolderFilesLoop_prefix _ _ _ file ts t pre post); try assumption.
    apply filter_In. auto.
Qed.

(** * [renderViewsList] *)

Section ListFacts.

Lemma pinnedLoop_In views_path pinned_prefix displayed pinned (name : ViewName) :
  In name pinned ->
  In (wikilink views_path name (pinned_prefix ++ displayed name)%string)
     (pinnedLoop views_path pinned_prefix displayed pinned).
Proof.
  induction pinned as [|n pinned IH]; [intros []|].
  cbn [pinnedLoop]. intros [->|H]; [now left | right; auto].
Qed.

Lemma listLoop_In views_path displayed pinned view_names (name : ViewName) :
  In name view_names -> ~ In name pinned ->
  In (wikilink views_path name (displayed name))
     (listLoop views_path displayed pinned view_names).
Proof.
  intros Hin Hp. induction view_names as [|n view_names IH]; [contradiction|].
  cbn [listLoop]. destruct (JS.includes pinned n) eqn:E.
  - destruct Hin as [->|Hin]; [|auto].
    apply includes_In in E. contradiction.
  - destruct Hin as [->|Hin]; [now left | right; auto].
Qed.

(** Both loops together leave out no name of the list. *)
Lemma loops_link_every_name views_path pinned_prefix displayed pinned view_names
    (name : ViewName) :
  In name view_names ->
  exists label,
    In (wikilink views_path name label)
       (pinnedLoop views_path pinned_prefix displayed pinned
        ++ listLoop views_path displayed pinned view_names).
Proof.
  intros Hin. destruct (JS.includes pinned name) eqn:E.
  - apply includes_In in E. eexists. apply in_or_app. left.
    now apply pinnedLoop_In.
  - apply includes_false in E. eexists. apply in_or_app. right.
    now apply listLoop_In.
Qed.

End ListFacts.

(** X17.  [renderViewsList] leaves out no view: every name of the initiated
    or uninitiated list of [getAllViews] gets a paragraph that links to
    [views_path/name], among the pinned ones or below them, merged or not.
    This holds in both revisions. *)
Theorem renderViewsList_links_every_view cfg home app kwargs (name : ViewName) :
  let views_path := trimSlashes (kwarg kwargs lk_views_path (VIEWS_PATH cfg)) in
  (In name (initiated (CoreJs.getAllViews cfg app (viewsKwargsOf kwargs views_path))
            ++ uninitiated (CoreJs.getAllViews cfg app (viewsKwargsOf kwargs views_path))) ->
   exists label,
     In (wikilink views_path name label)
        (CoreJsHome.renderViewsList cfg home app kwargs)) /\
  (In name (initiated (Part003.getAllViews cfg app (viewsKwargsOf kwargs views_path))
            ++ uninitiated (Part003.getAllViews cfg app (viewsKwargsOf kwargs views_path))) ->
   exists label,
     In (wikilink views_path name label)
        (Part003Home.renderViewsList cfg home app kwargs)).
Proof.
  intros views_path. split; intros Hin.
  - unfold CoreJsHome.renderViewsList. fold views_path.
    apply loops_link_every_name.
    destruct (kwarg kwargs lk_merge_views (MERGE_VIEWS_IN_LIST home));
      [now apply sort_In | assumption].
  - unfold Part003Home.renderViewsList. fold views_path.
    apply loops_link_every_name.
    destruct (kwarg kwargs lk_merge_views (MERGE_VIEWS_IN_LIST home));
      [now apply sort_In | assumption].
Qed.

Lemma renderViewsList_links_every_view_witness :
  exists label,
    In (wikilink "Views" "a/x" label)
       (Part003Home.renderViewsList default_config default_home subfolder_vault None).
Proof.
  apply (proj2 (renderViewsList_links_every_view default_config default_home
                  subfolder_vault None "a/x")).
  simpl. auto 10.
Defined.

(** * How derived names and subfolders meet the matchers *)

Section DerivedFacts.

Lemma replace_first_append (a rest : string) :
  hasChar "/" a = false ->
  JS.replace "/" " " (a ++ String "/" rest) = (a ++ String " " rest)%string.
Proof.
  induction a as [|c a IH]; cbn [append JS.replace hasChar].
  - intros _. now rewrite Ascii.eqb_refl.
  - intros H. apply orb_false_iff in H. destruct H as [Hc Ha].
    now rewrite Hc, IH.
Qed.

(** The trimmed form of [folder/k] still ends in [k]. *)
Lemma trimSlashes_folder (folder k : string) :
  hasChar "/" k = false -> k <> "" ->
  trimSlashes (folder ++ "/" ++ k)%string = k \/
  exists x, trimSlashes (folder ++ "/" ++ k)%string = (x ++ "/" ++ k)%string.
Proof.
  intros Hs Hn.
  assert (Hend : forall x, lastIs "/" (x ++ k)%string = false).
  { intros x. rewrite lastIs_append by assumption.
    destruct (lastIs "/" k) eqn:E; [|reflexivity].
    apply lastIs_hasChar in E. congruence. }
  rewrite trimSlashes_struct. cbv zeta. rewrite startsWith_char.
  destruct folder as [|c folder].
  - left. cbn [append dropFirst]. rewrite Ascii.eqb_refl.
    pose proof (Hend "") as He. cbn [append] in He. now rewrite He.
  - right. cbn [append dropFirst].
    destruct (Ascii.eqb c "/").
    + exists folder.
      replace (folder ++ String "/" k)%string
        with ((folder ++ "/") ++ k)%string by (now rewrite append_assoc).
      now rewrite Hend.
    + exists (String c folder).
      replace (String c (folder ++ String "/" k))
        with ((String c folder ++ "/") ++ k)%string
        by (now rewrite append_assoc).
      rewrite Hend. now rewrite append_assoc.
Qed.

Lemma concat_has_sep (x y : string) (rest : list string) :
  hasChar "/" (String.concat "/" (x :: y :: rest)) = true.
Proof.
  rewrite concat_cons by discriminate.
  induction x as [|c x IH]; cbn [append hasChar] in *.
  - reflexivity.
  - rewrite IH. apply orb_true_r.
Qed.

Variables (custom_views CORE_CUSTOM_VIEWS : CustomViews).

Hypothesis user_keys_flat :
  forall key, In key (JS.keys custom_views) -> hasChar "/" key = false.
Hypothesis core_keys_flat :
  forall key, In key (JS.keys CORE_CUSTOM_VIEWS) -> hasChar "/" key = false.

Lemma slashed_not_key (v : ViewName) :
  hasChar "/" v = true ->
  ~ In v (JS.keys custom_views) /\ ~ In v (JS.keys CORE_CUSTOM_VIEWS).
Proof.
  intros Hv. split; intros Hk.
  - apply user_keys_flat in Hk. congruence.
  - apply core_keys_flat in Hk. congruence.
Qed.

(** With keys free of "/", the lookup for [x/k] ends where the lookup for
    [k] ends. *)
Lemma viewRuleLoop_folder (x k : string) (tag_names : list TagName) :
  hasChar "/" k = false ->
  viewRuleLoop custom_views CORE_CUSTOM_VIEWS
    (matching_view_names (x ++ "/" ++ k)%string) tag_names
  = viewRuleLoop custom_views CORE_CUSTOM_VIEWS (matching_view_names k) tag_names.
Proof.
  intros Hk.
  assert (Hlast : forall v tl,
            viewRuleLoop custom_views CORE_CUSTOM_VIEWS
              (tl ++ [("/" ++ v)%string]) tag_names
            = viewRuleLoop custom_views CORE_CUSTOM_VIEWS tl tag_names).
  { intros v tl. induction tl as [|u tl IH]; cbn [app viewRuleLoop].
    - destruct (slashed_not_key ("/" ++ v)%string eq_refl) as [H1 H2].
      apply includes_false in H1, H2. now rewrite H1, H2.
    - now rewrite IH. }
  rewrite !matching_view_names_suffixes, !Hlast.
  cbn [append]. rewrite split_append_sep, (split_no_sep _ _ Hk).
  cbn [suffixes map].
  induction (JS.split "/" x) as [|s segs IH]; [reflexivity|].
  cbn [app suffixes map viewRuleLoop].
  assert (Hs : hasChar "/" (String.concat "/" (s :: segs ++ [k])) = true).
  { destruct segs; apply concat_has_sep. }
  destruct (slashed_not_key _ Hs) as [H1 H2].
  apply includes_false in H1, H2. now rewrite H1, H2.
Qed.

End DerivedFacts.

(** X18.  For a tag of three or more levels the name that [getAllViews]
    derives keeps a "/" (only the first one is turned into " "), so the
    regular matcher reads it as a view in a folder: it matches what the view
    named by the tag's last level matches. *)
Theorem regularViewMatchesTags_derived_view_deep (a mid leaf : string)
    (T : list TagName) :
  hasChar "/" a = false ->
  hasChar "/" leaf = false ->
  leaf <> "" ->
  regularViewMatchesTags (JS.replace "/" " " (a ++ "/" ++ mid ++ "/" ++ leaf)%string) T
  = regularViewMatchesTags leaf T.
Proof.
  intros Ha Hl Hn. cbn [append]. rewrite (replace_first_append _ _ Ha).
  replace (a ++ String " " (mid ++ String "/" leaf))%string
    with ((a ++ " " ++ mid) ++ "/" ++ leaf)%string
    by (now rewrite !append_assoc).
  unfold regularViewMatchesTags.
  change (last (JS.split "/" (trimSlashes ((a ++ " " ++ mid) ++ "/" ++ leaf)%string)) "")
    with (leafName ((a ++ " " ++ mid) ++ "/" ++ leaf)%string).
  change (last (JS.split "/" (trimSlashes leaf)) "") with (leafName leaf).
  now rewrite leafName_folder, leafName_no_slash.
Qed.

Lemma regularViewMatchesTags_derived_view_deep_witness :
  regularViewMatchesTags (JS.replace "/" " " ("a" ++ "/" ++ "b" ++ "/" ++ "c")%string)
    ["a/b/c"]
  = regularViewMatchesTags "c" ["a/b/c"].
Proof.
  apply (regularViewMatchesTags_derived_view_deep "a" "b" "c" ["a/b/c"]);
    [reflexivity | reflexivity | discriminate].
Defined.

Lemma CoreJs_core_keys_flat cfg app (key : string) :
  In key (JS.keys (CoreJs.CORE_CUSTOM_VIEWS cfg app)) -> hasChar "/" key = false.
Proof.
  simpl. intros H. repeat (destruct H as [<-|H]; [reflexivity|]). contradiction.
Qed.

(** X19.  A view file placed in a subfolder shows what the view of the same
    name at the root shows, provided that no key of the user view table
    contains "/" and that no tag of the thing has a tag rule (tag rules are
    asked about the whole path, which differs). *)
Theorem viewMatchesTags_subfolder cfg app kwargs (folder k : ViewName)
    (T : list TagName) :
  hasChar "/" k = false ->
  k <> "" ->
  (forall key, In key (JS.keys (kwarg kwargs mk_custom_views (CUSTOM_VIEWS cfg))) ->
     hasChar "/" key = false) ->
  (forall t, In t T ->
     ~ In t (JS.keys (kwarg kwargs mk_custom_tags (CUSTOM_TAGS cfg))) /\
     ~ In t (JS.keys CoreJs.CORE_CUSTOM_TAGS)) ->
  CoreJs.viewMatchesTags cfg app (folder ++ "/" ++ k)%string (Some T) kwargs
  = CoreJs.viewMatchesTags cfg app k (Some T) kwargs.
Proof.
  intros Hk Hn Hkeys Htags.
  unfold CoreJs.viewMatchesTags, viewMatchesTagsWith.
  rewrite !tagRulesPass_no_rule by assumption. cbn [negb].
  rewrite (trimSlashes_no_slash k Hk).
  destruct (trimSlashes_folder folder k Hk Hn) as [->|[x ->]]; [reflexivity|].
  rewrite (viewRuleLoop_folder _ _ Hkeys (CoreJs_core_keys_flat cfg app) x k T Hk).
  destruct (viewRuleLoop _ _ _ _); [reflexivity|].
  unfold regularViewMatchesTags.
  change (last (JS.split "/" (trimSlashes (x ++ "/" ++ k)%string)) "")
    with (leafName (x ++ "/" ++ k)%string).
  change (last (JS.split "/" (trimSlashes k)) "") with (leafName k).
  now rewrite leafName_folder, leafName_no_slash.
Qed.

Lemma viewMatchesTags_subfolder_witness :
  CoreJs.viewMatchesTags shadowing_config empty_vault ("games/rpg" ++ "/" ++ "All")%string
    (Some ["proj/web"]) None
  = CoreJs.viewMatchesTags shadowing_config empty_vault "All" (Some ["proj/web"]) None.
Proof.
  apply (viewMatchesTags_subfolder shadowing_config empty_vault None
           "games/rpg" "All" ["proj/web"]).
  - reflexivity.
  - discriminate.
  - simpl. intros key [<-|[]]. reflexivity.
  - intros t [<-|[]]. split; not_a_key.
Defined.
